(** * Daily French Word agent: a shallow embedding of [app.js]

    The program is one Express handler ([POST /mastra/agent]) over two
    module-level variables: the word catalog [WORDS] and the per-channel
    rotation state [PROGRESS], mirrored to [progress.json] after every
    rotation.  The embedding follows the source statement by statement.

    - Values that reach the handler in [req.body] are kept untyped ([val]):
      the handler probes payloads of several shapes.
    - Exceptions (a [TypeError], a refused [fs.writeFileSync]) and the
      module state are threaded through a state-and-exception monad [M] in
      which a mutation made before a throw survives the throw, as in
      JavaScript.
    - [PROGRESS] is a plain object: reading [PROGRESS[k]] consults the own
      properties first and [Object.prototype] second, and a property key is
      the string the identifier converts to.
    - The clock and the disk are inputs of a request ([env]); every call of
      [fs.writeFileSync] is logged in the state.

    What is taken as given: entries of the catalog are records of four
    strings and records of [PROGRESS] hold a number and a string or [null]
    (the shapes the program itself writes); numbers are integers, and the
    model computes with them, and prints them, as the engine does as long
    as they are safe integers (below 2^53 in absolute value), which the
    properties that depend on it assume ([safe_numbers]); text is held in [string] as the UTF-8
    bytes of the JavaScript string.  [String.prototype.trim] and
    [String.prototype.toLowerCase] are parameters of the handler, since
    their Unicode tables belong to the engine; their ASCII instances are
    used to run the model on concrete requests. *)

From Stdlib Require Import ZArith String Ascii List Bool Lia DecimalString.
From stdpp Require Import gmap strings.

#[local] Open Scope string_scope.
#[local] Set Warnings "-register-all".

(** ** Exceptions and results *)

Inductive exn := TypeError | IOError.

Inductive result (A : Type) :=
  | Return (a : A)
  | Throw (e : exn).
Arguments Return {A} a.
Arguments Throw {A} e.

#[export] Instance result_ret : MRet result := @Return.
#[export] Instance result_bind : MBind result :=
  λ A B f r, match r with Return a => f a | Throw e => Throw e end.

(** ** JavaScript values and the built-in operations the program uses *)

Module JS.

(** A value obtained from [JSON.parse], or [undefined].  Numbers are the
    integer-valued ones; an object is its list of own properties. *)
Inductive val :=
  | VUndef
  | VNull
  | VBool (b : bool)
  | VNum (z : Z)
  | VStr (s : string)
  | VArr (items : list val)
  | VObj (fields : list (string * val)).

(** ToBoolean. *)
Definition truthy (v : val) : bool :=
  match v with
  | VUndef | VNull => false
  | VBool b => b
  | VNum z => negb (z =? 0)%Z
  | VStr s => negb (s =? "")
  | VArr _ | VObj _ => true
  end.

(** [a || b]. *)
Definition js_or (a b : val) : val := if truthy a then a else b.

Fixpoint field (fields : list (string * val)) (k : string) : val :=
  match fields with
  | [] => VUndef
  | (k', v) :: rest => if k' =? k then v else field rest k
  end.

Definition has_own (fields : list (string * val)) (k : string) : bool :=
  existsb (λ kv, fst kv =? k) fields.

(** [v?.k] for the property names the handler asks for ([channel], [id],
    [channelId], [address], [metadata], [text], [message], [content]):
    none of them is inherited from a built-in prototype, so only an object's
    own properties can answer, and every other value yields [undefined]. *)
Definition opt_get (v : val) (k : string) : val :=
  match v with
  | VObj fields => field fields k
  | _ => VUndef
  end.

(** [typeof v === "string"]. *)
Definition is_string (v : val) : bool :=
  match v with VStr _ => true | _ => false end.

(** [Number.prototype.toString] on a safe integer: its decimal digits. *)
Definition Number_toString (z : Z) : string :=
  NilZero.string_of_int (Z.to_int z).

(** The abstract operation ToString.  An array joins its elements with a
    comma, [null] and [undefined] elements printing as nothing; an object
    prints through [Object.prototype.toString] unless an own property named
    [toString] (never callable in parsed JSON) hides it, in which case the
    conversion throws. *)
Fixpoint ToString (v : val) : result string :=
  match v with
  | VUndef => Return "undefined"
  | VNull => Return "null"
  | VBool true => Return "true"
  | VBool false => Return "false"
  | VNum z => Return (Number_toString z)
  | VStr s => Return s
  | VArr items =>
      (fix join (l : list val) : result string :=
         match l with
         | [] => Return ""
         | x :: rest =>
             sx ← match x with
                  | VUndef | VNull => Return ""
                  | _ => ToString x
                  end;
             match rest with
             | [] => Return sx
             | _ => sr ← join rest; Return (sx ++ "," ++ sr)
             end
         end) items
  | VObj fields =>
      if has_own fields "toString" then Throw TypeError
      else Return "[object Object]"
  end.

(** [v.toString()], a method call: it throws on [null] and [undefined]. *)
Definition toString (v : val) : result string :=
  match v with
  | VUndef | VNull => Throw TypeError
  | _ => ToString v
  end.

(** ToPropertyKey, for the values that occur (no symbols). *)
Definition ToPropertyKey (v : val) : result string := ToString v.

(** [hay.includes(needle)]. *)
Fixpoint includes (hay needle : string) : bool :=
  String.prefix needle hay ||
  match hay with
  | EmptyString => false
  | String _ rest => includes rest needle
  end.

(** [s.split("/")[0]]. *)
Fixpoint split_slash_0 (s : string) : string :=
  match s with
  | EmptyString => EmptyString
  | String c rest =>
      if Ascii.eqb c "/"%char then EmptyString
      else String c (split_slash_0 rest)
  end.

(** Numbers produced by the cursor arithmetic: an integer or NaN.  The
    arithmetic below is the engine's as long as the integers are safe
    (below 2^53 in absolute value). *)
Inductive num := Int (z : Z) | NaN.

(** ToNumber of a property that may be [undefined] ([None]). *)
Definition ToNumber (o : option num) : num :=
  match o with Some n => n | None => NaN end.

Definition num_truthy (o : option num) : bool :=
  match o with
  | Some (Int z) => negb (z =? 0)%Z
  | _ => false
  end.

Definition js_add (a b : num) : num :=
  match a, b with
  | Int x, Int y => Int (x + y)
  | _, _ => NaN
  end.

(** [a % b]: the remainder takes the sign of the dividend. *)
Definition js_rem (a b : num) : num :=
  match a, b with
  | Int x, Int y => if (y =? 0)%Z then NaN else Int (Z.rem x y)
  | _, _ => NaN
  end.

(** [arr[n]]: [undefined] ([None]) outside the array. *)
Definition at_index {A} (arr : list A) (n : num) : option A :=
  match n with
  | Int z => if (z <? 0)%Z then None else arr !! Z.to_nat z
  | NaN => None
  end.

(** The names every plain object inherits from [Object.prototype]. *)
Definition Object_prototype_names : list string :=
  [ "constructor"; "__defineGetter__"; "__defineSetter__"; "hasOwnProperty";
    "__lookupGetter__"; "__lookupSetter__"; "isPrototypeOf";
    "propertyIsEnumerable"; "toString"; "valueOf"; "__proto__";
    "toLocaleString" ].

Definition inherited (k : string) : bool :=
  existsb (String.eqb k) Object_prototype_names.

(** ASCII instances of [trim] and [toLowerCase]. *)
Definition is_space (c : ascii) : bool :=
  let n := nat_of_ascii c in
  ((9 <=? n) && (n <=? 13) || (n =? 32))%nat.

Fixpoint trimStart (s : string) : string :=
  match s with
  | EmptyString => EmptyString
  | String c rest => if is_space c then trimStart rest else s
  end.

Fixpoint trimEnd (s : string) : string :=
  match s with
  | EmptyString => EmptyString
  | String c rest =>
      match trimEnd rest with
      | EmptyString => if is_space c then EmptyString else String c EmptyString
      | kept => String c kept
      end
  end.

Definition ascii_trim (s : string) : string := trimEnd (trimStart s).

Definition lower_char (c : ascii) : ascii :=
  let n := nat_of_ascii c in
  if ((65 <=? n) && (n <=? 90))%nat then ascii_of_nat (n + 32) else c.

Fixpoint ascii_toLowerCase (s : string) : string :=
  match s with
  | EmptyString => EmptyString
  | String c rest => String (lower_char c) (ascii_toLowerCase rest)
  end.

End JS.
Import JS.

(** ** The word catalog ([WORDS], lines 32-53) *)

Record WordEntry := {
  word : string;
  meaning : string;
  example : string;
  pron : string
}.

(** The built-in list the module starts from. *)
Definition DEFAULT_WORDS : list WordEntry :=
  [ {| word := "bonjour"; meaning := "hello (good day)";
       example := "Bonjour! Comment ça va?"; pron := "bohn-zhoor" |};
    {| word := "merci"; meaning := "thank you";
       example := "Merci pour ton aide."; pron := "mehr-see" |};
    {| word := "s'il vous plaît"; meaning := "please";
       example := "Un café, s'il vous plaît."; pron := "seel voo pleh" |};
    {| word := "amour"; meaning := "love";
       example := "L'amour est beau."; pron := "ah-moor" |};
    {| word := "chien"; meaning := "dog";
       example := "Le chien court dans le parc."; pron := "shee-en" |};
    {| word := "chat"; meaning := "cat";
       example := "Le chat dort sur la chaise."; pron := "sha" |} ].

(** What [JSON.parse] can hand back for [french_words.json]: an array of
    entries, or a value of any other shape. *)
Inductive parsed :=
  | NotAnArray
  | AnArray (entries : list WordEntry).

(** The state of [french_words.json] on disk: whether [fs.existsSync] finds
    it, and what [fs.readFileSync] does with it ([None]: it throws). *)
Record words_file := {
  existsSync : bool;
  readFileSync : option string
}.

Section Catalog.

(** [JSON.parse], any behaviour: [None] stands for a syntax error. *)
Variable JSON_parse : string → option parsed.

(** Lines 35-53: start from the default list; replace it only inside the
    [try], and only by a non-empty array.  The [catch] keeps the default. *)
Definition load_WORDS (f : words_file) : list WordEntry :=
  let WORDS := DEFAULT_WORDS in
  if existsSync f then
    match (raw ← readFileSync f; JSON_parse raw) with
    | Some (AnArray entries) =>
        if (0 <? length entries)%nat then entries else WORDS
    | Some NotAnArray => WORDS
    | None => WORDS
    end
  else WORDS.

End Catalog.

(** ** The rotation state ([PROGRESS], lines 60-67) *)

(** One channel's record, [{ index, last_sent }]. *)
Record entry := {
  index : num;
  last_sent : option string
}.

(** A call of [fs.writeFileSync(PROGRESS_FILE, ...)]: the serialised own
    properties of [PROGRESS], and whether the write went through. *)
Record fs_write := {
  content : gmap string entry;
  completed : bool
}.

(** The mutable world of the module.
    - [PROGRESS]: the own properties of the object;
    - [intrinsics] and [stamps]: the properties [index] and [last_sent]
      that an assignment has created on an object reached through
      [Object.prototype], under the inherited name that reaches it.  The
      name [__proto__] reaches [Object.prototype] itself, so what is stored
      under it is inherited by every object, [PROGRESS] included;
    - [fs_log]: every call of [fs.writeFileSync], newest first. *)
Record state := {
  PROGRESS : gmap string entry;
  intrinsics : gmap string num;
  stamps : gmap string string;
  fs_log : list fs_write
}.

Definition fresh_state : state :=
  {| PROGRESS := ∅; intrinsics := ∅; stamps := ∅; fs_log := [] |}.

(** What the request brings from outside the program: the clock reading of
    [new Date().toISOString()] and whether the disk accepts a write. *)
Record env := {
  now : string;
  fs_ok : bool
}.

(** A request served at clock reading [t] by a disk that accepts writes. *)
Definition clock (t : string) : env := {| now := t; fs_ok := true |}.

(** A number or a string found as a property of [Object.prototype]. *)
Inductive primitive :=
  | PNum (n : num)
  | PStr (s : string).

(** What [PROGRESS[key]] evaluates to. *)
Inductive slot :=
  | Absent                     (* undefined *)
  | Own (e : entry)            (* an own property: a progress record *)
  | Builtin                    (* a built-in object found on the prototype *)
  | Inherited (v : primitive). (* a value an assignment left on the prototype *)

(** Own properties first, then [Object.prototype]: its twelve members, and
    the properties [index] and [last_sent] once a rotation for the
    identifier [__proto__] has created them there. *)
Definition PROGRESS_at (st : state) (key : string) : slot :=
  match PROGRESS st !! key with
  | Some e => Own e
  | None =>
      if inherited key then Builtin
      else if key =? "index" then
        match intrinsics st !! "__proto__" with
        | Some n => Inherited (PNum n)
        | None => Absent
        end
      else if key =? "last_sent" then
        match stamps st !! "__proto__" with
        | Some s => Inherited (PStr s)
        | None => Absent
        end
      else Absent
  end.

Definition slot_truthy (s : slot) : bool :=
  match s with
  | Absent => false
  | Own _ | Builtin => true
  | Inherited (PNum n) => num_truthy (Some n)
  | Inherited (PStr s) => negb (s =? "")
  end.

(** [index] read on a built-in object: its own property if one was created,
    else the one on [Object.prototype] if that was created, else
    [undefined].  A number or a string has no own [index]: it reads the one
    on [Object.prototype]. *)
Definition builtin_index (st : state) (key : string) : option num :=
  match intrinsics st !! key with
  | Some n => Some n
  | None => intrinsics st !! "__proto__"
  end.

(** ** State and exceptions *)

Definition M (A : Type) : Type := state → state * result A.

#[export] Instance M_ret : MRet M := λ A a st, (st, Return a).
#[export] Instance M_bind : MBind M :=
  λ A B f m st,
    match m st with
    | (st', Return a) => f a st'
    | (st', Throw e) => (st', Throw e)
    end.

Definition lift {A} (r : result A) : M A := λ st, (st, r).
Definition throw {A} (e : exn) : M A := λ st, (st, Throw e).
Definition gets {A} (f : state → A) : M A := λ st, (st, Return (f st)).
Definition modify (f : state → state) : M unit := λ st, (f st, Return tt).

(** [PROGRESS[channelId]]. *)
Definition PROGRESS_get (channelId : val) : M slot :=
  key ← lift (ToPropertyKey channelId);
  gets (λ st, PROGRESS_at st key).

(** [PROGRESS[channelId] = e], reached only where the slot was falsy: the
    assignment creates an own property. *)
Definition PROGRESS_set (channelId : val) (e : entry) : M unit :=
  key ← lift (ToPropertyKey channelId);
  modify (λ st, {| PROGRESS := <[key := e]> (PROGRESS st);
                   intrinsics := intrinsics st;
                   stamps := stamps st;
                   fs_log := fs_log st |}).

(** [PROGRESS[channelId].index]: reading a property of [undefined] throws. *)
Definition get_index (channelId : val) : M (option num) :=
  key ← lift (ToPropertyKey channelId);
  s ← gets (λ st, PROGRESS_at st key);
  match s with
  | Absent => throw TypeError
  | Own e => mret (Some (index e))
  | Builtin => gets (λ st, builtin_index st key)
  | Inherited _ => gets (λ st, intrinsics st !! "__proto__")
  end.

(** [PROGRESS[channelId]?.index]. *)
Definition opt_index (channelId : val) : M (option num) :=
  key ← lift (ToPropertyKey channelId);
  s ← gets (λ st, PROGRESS_at st key);
  match s with
  | Absent => mret None
  | Own e => mret (Some (index e))
  | Builtin => gets (λ st, builtin_index st key)
  | Inherited _ => gets (λ st, intrinsics st !! "__proto__")
  end.

(** [PROGRESS[channelId].index = n].  The module is strict code: an
    assignment to a property of a number or a string throws. *)
Definition set_index (channelId : val) (n : num) : M unit :=
  key ← lift (ToPropertyKey channelId);
  s ← gets (λ st, PROGRESS_at st key);
  match s with
  | Absent => throw TypeError
  | Own e =>
      modify (λ st, {| PROGRESS := <[key := {| index := n;
                                               last_sent := last_sent e |}]>
                                     (PROGRESS st);
                       intrinsics := intrinsics st;
                       stamps := stamps st;
                       fs_log := fs_log st |})
  | Builtin =>
      modify (λ st, {| PROGRESS := PROGRESS st;
                       intrinsics := <[key := n]> (intrinsics st);
                       stamps := stamps st;
                       fs_log := fs_log st |})
  | Inherited _ => throw TypeError
  end.

(** [PROGRESS[channelId].last_sent = t]. *)
Definition set_last_sent (channelId : val) (t : string) : M unit :=
  key ← lift (ToPropertyKey channelId);
  s ← gets (λ st, PROGRESS_at st key);
  match s with
  | Absent => throw TypeError
  | Own e =>
      modify (λ st, {| PROGRESS := <[key := {| index := index e;
                                               last_sent := Some t |}]>
                                     (PROGRESS st);
                       intrinsics := intrinsics st;
                       stamps := stamps st;
                       fs_log := fs_log st |})
  | Builtin =>
      modify (λ st, {| PROGRESS := PROGRESS st;
                       intrinsics := intrinsics st;
                       stamps := <[key := t]> (stamps st);
                       fs_log := fs_log st |})
  | Inherited _ => throw TypeError
  end.

(** [saveProgress()], lines 65-67: serialise the own properties and write
    them; a refused write throws out of [fs.writeFileSync]. *)
Definition saveProgress (ev : env) : M unit :=
  λ st,
    ({| PROGRESS := PROGRESS st;
        intrinsics := intrinsics st;
        stamps := stamps st;
        fs_log := {| content := PROGRESS st; completed := fs_ok ev |}
                    :: fs_log st |},
     if fs_ok ev then Return tt else Throw IOError).

(** ** The agent (lines 73-152) *)

Record pick := {
  pick_index : num;
  wordObj : option WordEntry
}.

Record action := {
  action_type : string;
  title : string;
  action_payload : string
}.

Record payload := {
  type : string;
  text : string;
  actions : list action
}.

Inductive response :=
  | Json200 (p : payload)
  | Json500 (error : string).

Definition dq : string := String "034"%char EmptyString.
Definition nl : string := String "010"%char EmptyString.

(** [buildResponsePayload(original, text, askForSentence)], lines 89-104. *)
Definition buildResponsePayload (original : val) (text : string)
    (askForSentence : bool) : payload :=
  {| type := "message";
     text := text;
     actions :=
       if askForSentence then
         [ {| action_type := "button"; title := "I'll use it now";
              action_payload := "I used the word: " |};
           {| action_type := "button"; title := "Send a sentence later";
              action_payload := "send later" |} ]
       else [] |}.

(** The two texts of the acknowledgement branch (lines 135 and 137) and the
    text of the daily word (line 144). *)
Definition praise (lastWord : string) : string :=
  "Amazing — you used the word " ++ dq ++ lastWord ++ dq
  ++ " correctly! Très bien 🎉" ++ nl
  ++ "Would you like another word tomorrow?".

Definition tip (sample : string) : string :=
  "Thanks — nice try! Here's a tip: include the new word in your "
  ++ "sentence (e.g., " ++ dq ++ sample ++ dq ++ ").".

Definition composed (w : WordEntry) : string :=
  "🇫🇷 *Word of the day* — *" ++ word w ++ "*" ++ nl
  ++ "Pronunciation: " ++ pron w ++ nl
  ++ "Meaning: " ++ meaning w ++ nl
  ++ "Example: " ++ example w ++ nl ++ nl
  ++ "Can you write a sentence using *" ++ word w
  ++ "*? Reply here and I'll give feedback!".

(** Lines 118-123. *)
Definition channelId_of (body : val) : val :=
  js_or (opt_get (opt_get body "channel") "id")
    (js_or (opt_get body "channelId")
       (js_or (match opt_get body "address" with
            | VStr address => VStr (split_slash_0 address)
            | _ => VNull
            end)
          (js_or (opt_get (opt_get body "metadata") "channelId")
             (VStr "global")))).

(** Line 114, [req.body || {}]. *)
Definition body_of (req_body : val) : val := js_or req_body (VObj []).

(** The test of line 129 on the normalised text. *)
Definition is_sentence (incomingText : string) : bool :=
  negb (incomingText =? "")
  && (0 <? String.length incomingText)%nat
  && negb (incomingText =? "daily word")
  && negb (existsb (String.eqb incomingText) ["start"; "help"]).

(** The boundary of the handler: [res.json(payload)] on a normal return,
    [res.status(500).json({ error })] from the [catch] (lines 148-151). *)
Definition respond (r : state * result payload) : state * response :=
  match r with
  | (st', Return p) => (st', Json200 p)
  | (st', Throw _) => (st', Json500 "Agent internal error")
  end.

Section Agent.

Variable trim : string → string.
Variable toLowerCase : string → string.
Variable WORDS : list WordEntry.

(** [pickNextWord(channelId)], lines 73-82. *)
Definition pickNextWord (ev : env) (channelId : val) : M pick :=
  let total := Int (Z.of_nat (length WORDS)) in
  cur ← PROGRESS_get channelId;
  _ ← (if slot_truthy cur then mret tt
       else PROGRESS_set channelId {| index := Int 0; last_sent := None |});
  i ← get_index channelId;
  let idx := js_rem (ToNumber i) total in
  j ← get_index channelId;
  _ ← set_index channelId (js_rem (js_add (ToNumber j) (Int 1)) total);
  _ ← set_last_sent channelId (now ev);
  _ ← saveProgress ev;
  mret {| pick_index := idx; wordObj := at_index WORDS idx |}.

(** Line 126. *)
Definition incomingText_of (body : val) : result string :=
  s ← toString (js_or (opt_get body "text")
                  (js_or (opt_get body "message")
                     (js_or (opt_get body "content") (VStr ""))));
  mret (toLowerCase (trim s)).

(** Lines 130-139, the acknowledgement of a sentence. *)
Definition acknowledge (channelId : val) (incomingText : string)
    (body : val) : M payload :=
  let total := Int (Z.of_nat (length WORDS)) in
  cur ← opt_index channelId;
  lastIndex ← (if num_truthy cur then
                 i ← get_index channelId;
                 mret (Some (js_rem
                              (js_add (js_add (ToNumber i) total) (Int (-1)))
                              total))
               else mret None);
  lastWord ← match lastIndex with
             | Some li =>
                 match at_index WORDS li with
                 | Some w => mret (Some (word w))
                 | None => throw TypeError
                 end
             | None => mret None
             end;
  let lastWord_truthy :=
    match lastWord with Some lw => negb (lw =? "") | None => false end in
  replyText ←
    (if lastWord_truthy && includes incomingText (default "" lastWord)
     then mret (praise (default "" lastWord))
     else
       sample ← (if lastWord_truthy then
                   match lastIndex ≫= at_index WORDS with
                   | Some w => mret (example w)
                   | None => throw TypeError
                   end
                 else mret "example");
       mret (tip sample));
  mret (buildResponsePayload body replyText false).

(** Lines 143-147, the word of the day. *)
Definition daily_word (ev : env) (channelId : val) (body : val) : M payload :=
  p ← pickNextWord ev channelId;
  text ← match wordObj p with
         | Some w => mret (composed w)
         | None => throw TypeError
         end;
  mret (buildResponsePayload body text true).

(** The body of the [try] block, lines 114-147. *)
Definition agent_try (ev : env) (req_body : val) : M payload :=
  let body := body_of req_body in
  let channelId := channelId_of body in
  incomingText ← lift (incomingText_of body);
  if is_sentence incomingText then acknowledge channelId incomingText body
  else daily_word ev channelId body.

(** [POST /mastra/agent], lines 111-152: whatever is thrown inside the
    [try] becomes the one 500 answer of the [catch]. *)
Definition mastra_agent (ev : env) (req_body : val) (st : state)
    : state * response :=
  respond (agent_try ev req_body st).

End Agent.

(** ** What a call of [pickNextWord] leaves behind *)

(** The record after the call, the state after its write, the value it
    returns, and the result of a call that ends with a write. *)
Definition advance (total : num) (t : string) (e : entry) : entry :=
  {| index := js_rem (js_add (index e) (Int 1)) total;
     last_sent := Some t |}.

Definition written (ev : env) (own : gmap string entry)
    (builtins : gmap string num) (marks : gmap string string) (st : state)
    : state :=
  {| PROGRESS := own;
     intrinsics := builtins;
     stamps := marks;
     fs_log := {| content := own; completed := fs_ok ev |} :: fs_log st |}.

Definition served (WORDS : list WordEntry) (n : num) : pick :=
  {| pick_index := n; wordObj := at_index WORDS n |}.

Definition outcome {A} (ev : env) (a : A) : result A :=
  if fs_ok ev then Return a else Throw IOError.


(** ** Runs of several calls *)

(** Successive calls [pickNextWord(channelId)], one clock reading and disk
    answer per call; the results are listed in call order. *)
Fixpoint calls (WORDS : list WordEntry) (evs : list env) (channelId : val)
    (st : state) : state * list (result pick) :=
  match evs with
  | [] => (st, [])
  | ev :: rest =>
      let '(st1, r) := pickNextWord WORDS ev channelId st in
      let '(st2, rs) := calls WORDS rest channelId st1 in
      (st2, r :: rs)
  end.

(** Successive requests to the handler; the state after the last one. *)
Fixpoint after_requests (trim toLowerCase : string → string)
    (WORDS : list WordEntry) (reqs : list (env * val)) (st : state) : state :=
  match reqs with
  | [] => st
  | (ev, body) :: rest =>
      after_requests trim toLowerCase WORDS rest
        (fst (mastra_agent trim toLowerCase WORDS ev body st))
  end.

(** ** The specification's wording, for comparison with the code *)

(** The reserved inputs that ask for the next word, the empty text
    included. *)
Definition trigger_phrases : list string :=
  [ ""; "daily word"; "start"; "help" ].

(** The four probes of the conversation identifier, in the stated order:
    the nested channel object's id, the top-level channel id, the first
    segment of a string-valued address, the nested metadata channel id. *)
Definition probes (payload : val) : list val :=
  [ opt_get (opt_get payload "channel") "id";
    opt_get payload "channelId";
    match opt_get payload "address" with
    | VStr address => VStr (split_slash_0 address)
    | _ => VNull
    end;
    opt_get (opt_get payload "metadata") "channelId" ].

(** The first probe that yields a value, else the sentinel.  A probe yields
    a value when the result is not one of [undefined], [null], [false], [0]
    and the empty string. *)
Definition first_probe_or_global (payload : val) : val :=
  default (VStr "global") (find truthy (probes payload)).

(** A computation that leaves the state (the records, the built-in
    objects and the log of writes) as it found it, whatever it returns. *)
Definition reads_only {A} (m : M A) : Prop := ∀ st, fst (m st) = st.

(** A cursor is in range for a catalog of [T] entries. *)
Definition in_range (T : nat) (n : num) : Prop :=
  ∃ i : nat, n = Int (Z.of_nat i) ∧ i < T.

(** Every record of [PROGRESS] has its cursor in range. *)
Definition cursors_in_range (T : nat) (st : state) : Prop :=
  ∀ C e, PROGRESS st !! C = Some e → in_range T (index e).

(** ** Concrete runs used below *)

(** The agent with the ASCII [trim] and [toLowerCase]. *)
Definition agent := mastra_agent ascii_trim ascii_toLowerCase.

(** An empty-text request ([{}]) at each of the given clock readings. *)
Definition daily_requests (ts : list string) : list (env * val) :=
  (λ t, (clock t, VObj [])) <$> ts.

(** The default catalog after the conversation [global] has been served
    all six words, and after it has been served five of them. *)
Definition served_five : state :=
  after_requests ascii_trim ascii_toLowerCase DEFAULT_WORDS
    (daily_requests ["t1"; "t2"; "t3"; "t4"; "t5"]) fresh_state.

Definition served_six : state :=
  after_requests ascii_trim ascii_toLowerCase DEFAULT_WORDS
    (daily_requests ["t1"; "t2"; "t3"; "t4"; "t5"; "t6"]) fresh_state.

Definition served_one : state :=
  after_requests ascii_trim ascii_toLowerCase DEFAULT_WORDS
    (daily_requests ["t1"]) fresh_state.

Definition served_two : state :=
  after_requests ascii_trim ascii_toLowerCase DEFAULT_WORDS
    (daily_requests ["t1"; "t2"]) fresh_state.

Definition merci : WordEntry :=
  {| word := "merci"; meaning := "thank you";
     example := "Merci pour ton aide."; pron := "mehr-see" |}.

Definition bonjour : WordEntry :=
  {| word := "bonjour"; meaning := "hello (good day)";
     example := "Bonjour! Comment ça va?"; pron := "bohn-zhoor" |}.

(** A request whose write to disk is refused. *)
Definition disk_full (t : string) : env := {| now := t; fs_ok := false |}.

Definition chat : WordEntry :=
  {| word := "chat"; meaning := "cat";
     example := "Le chat dort sur la chaise."; pron := "sha" |}.

(** A [french_words.json] whose first word is capitalised. *)
Definition Paris : WordEntry :=
  {| word := "Paris"; meaning := "Paris (the capital)";
     example := "Paris est magnifique."; pron := "pa-ree" |}.

Definition CITY_WORDS : list WordEntry :=
  [ Paris;
    {| word := "merci"; meaning := "thank you";
       example := "Merci pour ton aide."; pron := "mehr-see" |} ].

Definition served_Paris : state :=
  after_requests ascii_trim ascii_toLowerCase CITY_WORDS
    (daily_requests ["t1"]) fresh_state.

(** ** Startup of the rotation state (lines 60-64) *)

(** The state of [progress.json] on disk, as for the catalog file. *)
Record progress_file := {
  progress_exists : bool;
  progress_read : option string
}.

(** What [JSON.parse] can hand back for [progress.json]: an object whose
    properties are records as the program writes them, or any other value
    ([null], an array, a number, an object of other things).  Line 63
    assigns it to [PROGRESS] without looking at its shape. *)
Inductive progress_value :=
  | Records (records : gmap string entry)
  | OtherValue.

Section Startup.

(** [JSON.parse] on the text of [progress.json], any behaviour: [None]
    stands for a syntax error. *)
Variable JSON_parse_progress : string → option progress_value.

(** Lines 61-64: [PROGRESS] starts as the empty object; an existing file
    replaces it by whatever it parses to, and the [catch] resets it to the
    empty object. *)
Definition load_PROGRESS (f : progress_file) : progress_value :=
  let PROGRESS := Records ∅ in
  if progress_exists f then
    match (raw ← progress_read f; JSON_parse_progress raw) with
    | Some parsed => parsed
    | None => Records ∅
    end
  else PROGRESS.

End Startup.

(** The module state when the server starts listening with an object of
    records in [PROGRESS]. *)
Definition startup (records : gmap string entry) : state :=
  {| PROGRESS := records; intrinsics := ∅; stamps := ∅; fs_log := [] |}.

(** ** Readings of the state used in the properties *)

(** The cursor the next rotation of a conversation starts from: 0 where
    [PROGRESS[key]] is falsy (a record is then created), the stored integer
    where there is a record; none where [PROGRESS[key]] is a built-in
    object or a truthy inherited value, or a record without a number. *)
Definition stored_cursor (st : state) (key : string) : option Z :=
  match PROGRESS_at st key with
  | Absent => Some 0%Z
  | Own e => match index e with Int z => Some z | NaN => None end
  | Builtin => None
  | Inherited v => if slot_truthy (Inherited v) then None else Some 0%Z
  end.

(** The integers a double holds exactly, [Number.isSafeInteger]. *)
Definition safe_integer (z : Z) : bool :=
  (- 2 ^ 53 <? z)%Z && (z <? 2 ^ 53)%Z.

(** Every number of a value is a safe integer.  For such values
    [Number_toString] prints what the engine prints. *)
Fixpoint safe_numbers (v : val) : bool :=
  match v with
  | VNum z => safe_integer z
  | VArr items => forallb safe_numbers items
  | VObj fields => forallb (λ kv, safe_numbers (snd kv)) fields
  | _ => true
  end.



(** The two buttons of line 97-100. *)
Definition sentence_buttons : list action :=
  [ {| action_type := "button"; title := "I'll use it now";
       action_payload := "I used the word: " |};
    {| action_type := "button"; title := "Send a sentence later";
       action_payload := "send later" |} ].

(** A payload whose channel id is an object with a property [toString]. *)
Definition odd_payload : val :=
  VObj [("channelId", VObj [("toString", VNum 1)])].

(** A record written under a longer catalog: cursor 7, six entries now. *)
Definition stale_state : state :=
  {| PROGRESS := {[ "global" := {| index := Int 7; last_sent := None |} ]};
     intrinsics := ∅;
     stamps := ∅;
     fs_log := [] |}.

(** A process whose catalog file and progress file are both missing. *)
Definition no_file : words_file :=
  {| existsSync := false; readFileSync := None |}.

Definition no_progress_file : progress_file :=
  {| progress_exists := false; progress_read := None |}.

(** * Properties *)

(** ** The primitive accesses on a string key *)

Arguments inherited : simpl never.
Arguments PROGRESS_at : simpl never.

Lemma bind_run {A B} (m : M A) (f : A → M B) (st : state) :
  (m ≫= f) st =
    match m st with
    | (st', Return a) => f a st'
    | (st', Throw e) => (st', Throw e)
    end.
Proof. reflexivity. Qed.

Lemma PROGRESS_get_str C st :
  PROGRESS_get (VStr C) st = (st, Return (PROGRESS_at st C)).
Proof. reflexivity. Qed.

Lemma PROGRESS_set_str C e st :
  PROGRESS_set (VStr C) e st =
    ({| PROGRESS := <[C := e]> (PROGRESS st);
        intrinsics := intrinsics st;
        stamps := stamps st;
        fs_log := fs_log st |}, Return tt).
Proof. reflexivity. Qed.

Lemma get_index_str C st :
  get_index (VStr C) st =
    (st, match PROGRESS_at st C with
         | Absent => Throw TypeError
         | Own e => Return (Some (index e))
         | Builtin => Return (builtin_index st C)
         | Inherited _ => Return (intrinsics st !! "__proto__")
         end).
Proof.
  unfold get_index. rewrite bind_run. cbn. rewrite bind_run. cbn.
  by destruct (PROGRESS_at st C).
Qed.

Lemma opt_index_str C st :
  opt_index (VStr C) st =
    (st, Return match PROGRESS_at st C with
                | Absent => None
                | Own e => Some (index e)
                | Builtin => builtin_index st C
                | Inherited _ => intrinsics st !! "__proto__"
                end).
Proof.
  unfold opt_index. rewrite bind_run. cbn. rewrite bind_run. cbn.
  by destruct (PROGRESS_at st C).
Qed.

Lemma set_index_str C n st :
  set_index (VStr C) n st =
    match PROGRESS_at st C with
    | Absent | Inherited _ => (st, Throw TypeError)
    | Own e =>
        ({| PROGRESS := <[C := {| index := n; last_sent := last_sent e |}]>
                          (PROGRESS st);
            intrinsics := intrinsics st;
            stamps := stamps st;
            fs_log := fs_log st |}, Return tt)
    | Builtin =>
        ({| PROGRESS := PROGRESS st;
            intrinsics := <[C := n]> (intrinsics st);
            stamps := stamps st;
            fs_log := fs_log st |}, Return tt)
    end.
Proof.
  unfold set_index. rewrite bind_run. cbn. rewrite bind_run. cbn.
  by destruct (PROGRESS_at st C).
Qed.

Lemma set_last_sent_str C t st :
  set_last_sent (VStr C) t st =
    match PROGRESS_at st C with
    | Absent | Inherited _ => (st, Throw TypeError)
    | Own e =>
        ({| PROGRESS := <[C := {| index := index e; last_sent := Some t |}]>
                          (PROGRESS st);
            intrinsics := intrinsics st;
            stamps := stamps st;
            fs_log := fs_log st |}, Return tt)
    | Builtin =>
        ({| PROGRESS := PROGRESS st;
            intrinsics := intrinsics st;
            stamps := <[C := t]> (stamps st);
            fs_log := fs_log st |}, Return tt)
    end.
Proof.
  unfold set_last_sent. rewrite bind_run. cbn. rewrite bind_run. cbn.
  by destruct (PROGRESS_at st C).
Qed.

Lemma PROGRESS_at_own st C e :
  PROGRESS st !! C = Some e → PROGRESS_at st C = Own e.
Proof. unfold PROGRESS_at. by intros ->. Qed.

Lemma PROGRESS_at_own_inv st C e :
  PROGRESS_at st C = Own e → PROGRESS st !! C = Some e.
Proof.
  unfold PROGRESS_at. destruct (PROGRESS st !! C); [congruence|].
  intros H. repeat case_match; discriminate H.
Qed.

(** Without a record, [PROGRESS[C]] is [undefined] when [C] is none of the
    twelve inherited names and [Object.prototype] holds no [index] or
    [last_sent] that [C] would name. *)
Lemma PROGRESS_at_absent st C :
  PROGRESS st !! C = None →
  inherited C = false →
  (C = "index" → intrinsics st !! "__proto__" = None) →
  (C = "last_sent" → stamps st !! "__proto__" = None) →
  PROGRESS_at st C = Absent.
Proof.
  unfold PROGRESS_at. intros -> -> Hi Hl.
  destruct (String.eqb_spec C "index") as [Hc|_]; [by rewrite Hi|].
  destruct (String.eqb_spec C "last_sent") as [Hc|_]; [by rewrite Hl|done].
Qed.

Lemma PROGRESS_at_builtin st C :
  PROGRESS_at st C = Builtin ↔ PROGRESS st !! C = None ∧ inherited C = true.
Proof.
  unfold PROGRESS_at.
  destruct (PROGRESS st !! C), (inherited C); split;
    try intros [? ?]; try (congruence || done).
  intros H. repeat case_match; discriminate H.
Qed.

Lemma PROGRESS_at_no_record st C :
  PROGRESS st !! C = None → ∀ e, PROGRESS_at st C ≠ Own e.
Proof. intros Hnone e He%PROGRESS_at_own_inv. congruence. Qed.

Lemma PROGRESS_at_insert P I S L C e :
  PROGRESS_at {| PROGRESS := <[C := e]> P; intrinsics := I; stamps := S;
                 fs_log := L |} C
  = Own e.
Proof. apply PROGRESS_at_own. cbn. apply lookup_insert_eq. Qed.

(** A write on a built-in object leaves that name a built-in object. *)
Lemma PROGRESS_at_builtin_kept st C I S L :
  PROGRESS_at st C = Builtin →
  PROGRESS_at {| PROGRESS := PROGRESS st; intrinsics := I; stamps := S;
                 fs_log := L |} C
  = Builtin.
Proof. intros Hb%PROGRESS_at_builtin. by apply PROGRESS_at_builtin. Qed.

Section PickNextWord.

Variable WORDS : list WordEntry.
Let total : num := Int (Z.of_nat (length WORDS)).

Lemma pickNextWord_own ev C e st :
  PROGRESS st !! C = Some e →
  pickNextWord WORDS ev (VStr C) st =
    (written ev (<[C := advance total (now ev) e]> (PROGRESS st))
       (intrinsics st) (stamps st) st,
     outcome ev (served WORDS (js_rem (index e) total))).
Proof.
  intros Hown%PROGRESS_at_own. unfold pickNextWord.
  rewrite bind_run, PROGRESS_get_str, Hown. cbn [slot_truthy].
  rewrite bind_run. cbn [mret M_ret].
  rewrite bind_run, get_index_str, Hown.
  rewrite bind_run, get_index_str, Hown.
  rewrite bind_run, set_index_str, Hown.
  rewrite bind_run, set_last_sent_str, PROGRESS_at_insert.
  cbn [PROGRESS intrinsics stamps fs_log index last_sent].
  rewrite insert_insert_eq.
  unfold mbind, M_bind, saveProgress, written, outcome, served, advance.
  cbn. by destruct (fs_ok ev).
Qed.

(** Where [PROGRESS[C]] is falsy, line 75 creates the record first. *)
Lemma pickNextWord_falsy ev C st :
  slot_truthy (PROGRESS_at st C) = false →
  pickNextWord WORDS ev (VStr C) st =
    (written ev (<[C := advance total (now ev)
                          {| index := Int 0; last_sent := None |}]>
                   (PROGRESS st))
       (intrinsics st) (stamps st) st,
     outcome ev (served WORDS (js_rem (Int 0) total))).
Proof.
  intros Hfalsy. unfold pickNextWord.
  rewrite bind_run, PROGRESS_get_str, Hfalsy.
  rewrite bind_run, PROGRESS_set_str.
  rewrite bind_run, get_index_str, PROGRESS_at_insert.
  rewrite bind_run, get_index_str, PROGRESS_at_insert.
  rewrite bind_run, set_index_str, PROGRESS_at_insert.
  cbn [PROGRESS intrinsics stamps fs_log index last_sent].
  rewrite bind_run, set_last_sent_str, PROGRESS_at_insert.
  cbn [PROGRESS intrinsics stamps fs_log index last_sent].
  rewrite !insert_insert_eq.
  unfold mbind, M_bind, saveProgress, written, outcome, served, advance.
  cbn. by destruct (fs_ok ev).
Qed.

Lemma pickNextWord_absent ev C st :
  PROGRESS_at st C = Absent →
  pickNextWord WORDS ev (VStr C) st =
    (written ev (<[C := advance total (now ev)
                          {| index := Int 0; last_sent := None |}]>
                   (PROGRESS st))
       (intrinsics st) (stamps st) st,
     outcome ev (served WORDS (js_rem (Int 0) total))).
Proof. intros Habs. apply pickNextWord_falsy. by rewrite Habs. Qed.

(** On an inherited name with no own property the call works on the
    built-in object found on the prototype: nothing is added to [PROGRESS],
    and the [index] it leaves on that object is computed from what the
    object held. *)
Lemma pickNextWord_builtin ev C st :
  PROGRESS_at st C = Builtin →
  pickNextWord WORDS ev (VStr C) st =
    (written ev (PROGRESS st)
       (<[C := js_rem (js_add (ToNumber (builtin_index st C)) (Int 1)) total]>
          (intrinsics st))
       (<[C := now ev]> (stamps st)) st,
     outcome ev (served WORDS (js_rem (ToNumber (builtin_index st C)) total))).
Proof.
  intros Hb. unfold pickNextWord.
  rewrite bind_run, PROGRESS_get_str, Hb. cbn [slot_truthy].
  rewrite bind_run. cbn [mret M_ret].
  rewrite bind_run, get_index_str, Hb.
  rewrite bind_run, get_index_str, Hb.
  rewrite bind_run, set_index_str, Hb.
  rewrite bind_run, set_last_sent_str.
  rewrite (PROGRESS_at_builtin_kept st C _ _ _ Hb).
  unfold mbind, M_bind, saveProgress, written, outcome, served.
  cbn. by destruct (fs_ok ev).
Qed.

(** Where [PROGRESS[C]] is a truthy value inherited from the prototype (a
    string left there as [last_sent]), no record is created and the
    assignment of line 78 throws: nothing changes. *)
Lemma pickNextWord_inherited ev C st v :
  PROGRESS_at st C = Inherited v →
  slot_truthy (Inherited v) = true →
  pickNextWord WORDS ev (VStr C) st = (st, Throw TypeError).
Proof.
  intros Hslot Htruthy. unfold pickNextWord.
  rewrite bind_run, PROGRESS_get_str, Hslot, Htruthy.
  rewrite bind_run. cbn [mret M_ret].
  rewrite bind_run, get_index_str, Hslot.
  rewrite bind_run, get_index_str, Hslot.
  rewrite bind_run, set_index_str, Hslot. reflexivity.
Qed.

(** ** Arithmetic of a cursor that is in range *)

Lemma rem_in_range (i T : nat) :
  i < T → js_rem (Int (Z.of_nat i)) (Int (Z.of_nat T)) = Int (Z.of_nat i).
Proof.
  intros Hi. unfold js_rem.
  destruct (Z.eqb_spec (Z.of_nat T) 0) as [H0|_]; [lia|].
  f_equal. apply Z.rem_small. lia.
Qed.

Lemma rem_succ (i T : nat) :
  0 < T →
  js_rem (js_add (Int (Z.of_nat i)) (Int 1)) (Int (Z.of_nat T))
  = Int (Z.of_nat (S i `mod` T)).
Proof.
  intros HT. unfold js_rem, js_add.
  destruct (Z.eqb_spec (Z.of_nat T) 0) as [H0|_]; [lia|].
  f_equal. rewrite Z.rem_mod_nonneg by lia.
  rewrite Nat2Z.inj_mod. f_equal. lia.
Qed.

Lemma at_index_nat {A} (l : list A) (i : nat) :
  at_index l (Int (Z.of_nat i)) = l !! i.
Proof.
  unfold at_index.
  destruct (Z.ltb_spec (Z.of_nat i) 0); [lia|]. by rewrite Nat2Z.id.
Qed.

(** A call on a record whose cursor is in range: it serves the entry under
    the cursor and moves the cursor one step, back to 0 after the last. *)
Lemma pickNextWord_step ev C e st (i : nat) :
  PROGRESS st !! C = Some e →
  index e = Int (Z.of_nat i) →
  i < length WORDS →
  pickNextWord WORDS ev (VStr C) st =
    (written ev
       (<[C := {| index := Int (Z.of_nat (S i `mod` length WORDS));
                  last_sent := Some (now ev) |}]> (PROGRESS st))
       (intrinsics st) (stamps st) st,
     outcome ev (served WORDS (Int (Z.of_nat i)))).
Proof.
  intros Hown Hidx Hi. rewrite (pickNextWord_own _ _ _ _ Hown).
  unfold advance, total. rewrite Hidx, rem_in_range, rem_succ by lia.
  reflexivity.
Qed.

Lemma calls_from ev_list : ∀ C st e (i : nat),
  PROGRESS st !! C = Some e →
  index e = Int (Z.of_nat i) →
  i < length WORDS →
  snd (calls WORDS ev_list (VStr C) st)
  = imap (λ k ev, outcome ev
            (served WORDS (Int (Z.of_nat ((i + k) `mod` length WORDS)))))
      ev_list
  ∧ ∃ e', PROGRESS (fst (calls WORDS ev_list (VStr C) st)) !! C = Some e'
          ∧ index e' = Int (Z.of_nat ((i + length ev_list)
                                         `mod` length WORDS)).
Proof.
  induction ev_list as [|ev rest IH]; intros C st e i Hown Hidx Hi.
  - cbn. split; [done|]. exists e. split; [done|].
    by rewrite Nat.add_0_r, Nat.mod_small.
  - cbn [calls]. rewrite (pickNextWord_step _ _ _ _ _ Hown Hidx Hi).
    set (st1 := written _ _ _ _ _).
    set (e1 := {| index := Int (Z.of_nat (S i `mod` length WORDS));
                  last_sent := Some (now ev) |}).
    assert (Hown1 : PROGRESS st1 !! C = Some e1) by apply lookup_insert_eq.
    assert (Hlt : S i `mod` length WORDS < length WORDS)
      by (apply Nat.mod_upper_bound; lia).
    destruct (IH C st1 e1 _ Hown1 eq_refl Hlt) as [Hres (e' & Hown' & Hidx')].
    destruct (calls WORDS rest (VStr C) st1) as [st2 rs] eqn:Hcalls.
    cbn [fst snd] in *. split.
    + rewrite imap_cons. f_equal.
      * by rewrite Nat.add_0_r, Nat.mod_small.
      * rewrite Hres. apply imap_ext. intros k ev' _. cbn.
        do 4 f_equal. rewrite Nat.Div0.add_mod_idemp_l. f_equal. lia.
    + exists e'. split; [done|]. rewrite Hidx'. do 2 f_equal.
      rewrite Nat.Div0.add_mod_idemp_l. f_equal. cbn. lia.
Qed.

(** A run that starts without a record: the first call creates it with
    cursor 0, serves entry 0 and leaves the cursor at [1 mod T]. *)
Lemma calls_fresh ev_list C st :
  0 < length WORDS →
  PROGRESS_at st C = Absent →
  snd (calls WORDS ev_list (VStr C) st)
  = imap (λ k ev, outcome ev
            (served WORDS (Int (Z.of_nat (k `mod` length WORDS)))))
      ev_list
  ∧ (0 < length ev_list →
     ∃ e, PROGRESS (fst (calls WORDS ev_list (VStr C) st)) !! C = Some e
          ∧ index e = Int (Z.of_nat (length ev_list `mod` length WORDS))).
Proof.
  intros HT Habs. destruct ev_list as [|ev rest]; [by split; [|cbn; lia]|].
  cbn [calls]. rewrite (pickNextWord_absent _ _ _ Habs).
  set (e1 := advance _ _ _).
  set (st1 := written _ _ _ _ _).
  assert (Hown1 : PROGRESS st1 !! C = Some e1) by apply lookup_insert_eq.
  assert (Hidx1 : index e1 = Int (Z.of_nat (1 `mod` length WORDS)))
    by apply (rem_succ 0 _ HT).
  assert (Hlt : 1 `mod` length WORDS < length WORDS)
    by (apply Nat.mod_upper_bound; lia).
  destruct (calls_from rest C st1 e1 _ Hown1 Hidx1 Hlt)
    as [Hres (e' & Hown' & Hidx')].
  destruct (calls WORDS rest (VStr C) st1) as [st2 rs].
  cbn [fst snd] in *. split.
  - rewrite imap_cons. f_equal.
    + rewrite Nat.Div0.mod_0_l. do 2 f_equal.
      change (Int 0) with (Int (Z.of_nat 0)). by apply rem_in_range.
    + rewrite Hres. apply imap_ext. intros k ev' _. cbn.
      do 4 f_equal. by rewrite Nat.Div0.add_mod_idemp_l.
  - intros _. exists e'. split; [done|]. rewrite Hidx'. do 2 f_equal.
    by rewrite Nat.Div0.add_mod_idemp_l.
Qed.

(** A run on a built-in object whose [index] reads as no number: every call
    returns the index NaN and no entry, and no record is stored. *)
Lemma calls_builtin ev_list : ∀ C st,
  PROGRESS_at st C = Builtin →
  ToNumber (builtin_index st C) = NaN →
  snd (calls WORDS ev_list (VStr C) st)
  = (λ ev, outcome ev {| pick_index := NaN; wordObj := None |}) <$> ev_list
  ∧ PROGRESS (fst (calls WORDS ev_list (VStr C) st)) = PROGRESS st.
Proof.
  induction ev_list as [|ev rest IH]; intros C st Hb Hnan; [done|].
  cbn [calls]. rewrite (pickNextWord_builtin _ _ _ Hb), Hnan.
  set (st1 := written _ _ _ _ _).
  assert (Hb1 : PROGRESS_at st1 C = Builtin)
    by apply (PROGRESS_at_builtin_kept st C _ _ _ Hb).
  assert (Hnan1 : ToNumber (builtin_index st1 C) = NaN).
  { unfold builtin_index, st1. cbn [intrinsics written].
    by rewrite lookup_insert_eq. }
  destruct (IH C st1 Hb1 Hnan1) as [Hres Hown].
  destruct (calls WORDS rest (VStr C) st1) as [st2 rs].
  cbn [fst snd] in *. split; [|done].
  rewrite fmap_cons. by rewrite Hres.
Qed.

(** A run on a name that reads a truthy value left on the prototype: every
    call throws at line 78 and nothing changes. *)
Lemma calls_inherited ev_list C st v :
  PROGRESS_at st C = Inherited v →
  slot_truthy (Inherited v) = true →
  calls WORDS ev_list (VStr C) st = (st, (λ _, Throw TypeError) <$> ev_list).
Proof.
  intros Hslot Htruthy. induction ev_list as [|ev rest IH]; [done|].
  cbn [calls]. rewrite (pickNextWord_inherited _ _ _ _ Hslot Htruthy).
  by rewrite IH.
Qed.

End PickNextWord.

(** ** Rotation *)

(** X16.  Round-robin for an identifier the program has not met.  Let [C] be
    a string identifier for which [PROGRESS[C]] evaluates to [undefined]
    (the test of line 75: no record, none of the twelve inherited names, and
    no value on the prototype under that name) and let the catalog hold
    [T >= 1] entries.  Then in any run of successive calls
    [pickNextWord(C)], call number [k] (counting from 0) returns index
    [k mod T] together with the catalog entry at that index, provided its
    write to disk goes through; a call whose write is refused throws
    instead, after the cursor has moved.  The stored cursor after [n >= 1]
    calls is [n mod T]. *)
Lemma pickNextWord_rotation_unmet (WORDS : list WordEntry) (C : string)
    (st : state) (evs : list env) :
  0 < length WORDS →
  PROGRESS_at st C = Absent →
  snd (calls WORDS evs (VStr C) st)
  = imap (λ k ev, outcome ev
            (served WORDS (Int (Z.of_nat (k `mod` length WORDS))))) evs
  ∧ (∀ k, ∃ w, WORDS !! (k `mod` length WORDS) = Some w
          ∧ served WORDS (Int (Z.of_nat (k `mod` length WORDS)))
            = {| pick_index := Int (Z.of_nat (k `mod` length WORDS));
                 wordObj := Some w |})
  ∧ (0 < length evs →
     ∃ e, PROGRESS (fst (calls WORDS evs (VStr C) st)) !! C = Some e
          ∧ index e = Int (Z.of_nat (length evs `mod` length WORDS))).
Proof.
  intros HT Habs.
  destruct (calls_fresh WORDS evs C st HT Habs) as [Hres Hcursor].
  split; [exact Hres|]. split; [|exact Hcursor].
  intros k.
  destruct (lookup_lt_is_Some_2 WORDS (k `mod` length WORDS)) as [w Hw];
    [apply Nat.mod_upper_bound; lia|].
  exists w. split; [done|]. unfold served. by rewrite at_index_nat, Hw.
Qed.

Lemma pickNextWord_rotation_unmet_witness :
  snd (calls DEFAULT_WORDS
         (clock <$> ["t1"; "t2"; "t3"; "t4"; "t5"; "t6"; "t7"])
         (VStr "global") fresh_state)
  = (λ i, Return (served DEFAULT_WORDS (Int i))) <$> [0; 1; 2; 3; 4; 5; 0]%Z.
Proof.
  rewrite (proj1 (pickNextWord_rotation_unmet DEFAULT_WORDS "global"
                    fresh_state
                    (clock <$> ["t1"; "t2"; "t3"; "t4"; "t5"; "t6"; "t7"])
                    ltac:(cbn; lia) ltac:(reflexivity))).
  reflexivity.
Defined.

(** A call on an inherited name, on a fresh process. *)
Lemma pickNextWord_inherited_fresh (WORDS : list WordEntry) (ev : env)
    (C : string) :
  inherited C = true →
  pickNextWord WORDS ev (VStr C) fresh_state
  = (written ev ∅ {[ C := NaN ]} {[ C := now ev ]} fresh_state,
     outcome ev {| pick_index := NaN; wordObj := None |}).
Proof.
  intros Hinh.
  assert (Hb : PROGRESS_at fresh_state C = Builtin).
  { apply PROGRESS_at_builtin. split; [apply lookup_empty|done]. }
  rewrite (pickNextWord_builtin WORDS ev _ _ Hb).
  unfold builtin_index. cbn [intrinsics stamps fresh_state].
  rewrite !lookup_empty. reflexivity.
Qed.

Lemma Object_prototype_names_inherited C :
  C ∈ Object_prototype_names → inherited C = true.
Proof.
  intros HC. unfold inherited. apply existsb_exists. exists C.
  split; [by apply list_elem_of_In|apply String.eqb_refl].
Qed.

(** C1 (as the code behaves).  The rotation is not a round-robin for every
    identifier whose progress entry is absent.  On a fresh process
    ([PROGRESS = {}]), take for [C] any of the twelve names a plain object
    inherits ([constructor], [toString], [__proto__], ...): whatever the
    catalog, in any run of successive calls [pickNextWord(C)] every call
    returns the index NaN and no catalog entry (or throws on a refused
    write), and no record is ever stored for [C].  And once
    [pickNextWord("__proto__")] has run on a fresh process, at any clock
    reading (a timestamp is never the empty string), [PROGRESS["last_sent"]]
    is that timestamp: every call [pickNextWord("last_sent")] throws a
    TypeError at line 78 and stores nothing. *)
Theorem pickNextWord_no_round_robin (WORDS : list WordEntry)
    (evs : list env) :
  Forall
    (λ C,
       PROGRESS fresh_state !! C = None
       ∧ snd (calls WORDS evs (VStr C) fresh_state)
         = (λ ev, outcome ev {| pick_index := NaN; wordObj := None |}) <$> evs
       ∧ PROGRESS (fst (calls WORDS evs (VStr C) fresh_state)) !! C = None)
    Object_prototype_names
  ∧ ∀ (a : ascii) (t : string) (ok : bool),
      let polluted :=
        fst (pickNextWord WORDS {| now := String a t; fs_ok := ok |}
               (VStr "__proto__") fresh_state) in
      PROGRESS polluted !! "last_sent" = None
      ∧ PROGRESS_at polluted "last_sent" = Inherited (PStr (String a t))
      ∧ calls WORDS evs (VStr "last_sent") polluted
        = (polluted, (λ _, Throw TypeError) <$> evs).
Proof.
  split.
  - apply Forall_forall. intros C HC%Object_prototype_names_inherited.
    assert (Hb : PROGRESS_at fresh_state C = Builtin).
    { apply PROGRESS_at_builtin. split; [apply lookup_empty|done]. }
    destruct (calls_builtin WORDS evs C fresh_state Hb) as [Hres Hown].
    { unfold builtin_index. cbn [intrinsics fresh_state].
      by rewrite !lookup_empty. }
    split; [apply lookup_empty|]. split; [exact Hres|].
    rewrite Hown. apply lookup_empty.
  - intros a t ok polluted. subst polluted.
    rewrite (pickNextWord_inherited_fresh WORDS _ "__proto__" eq_refl).
    cbn [fst now].
    assert (Hslot : PROGRESS_at
                      (written {| now := String a t; fs_ok := ok |} ∅
                         {["__proto__" := NaN]}
                         {["__proto__" := String a t]} fresh_state)
                      "last_sent"
                    = Inherited (PStr (String a t))).
    { unfold PROGRESS_at. cbn [PROGRESS written stamps].
      rewrite lookup_empty.
      change (inherited "last_sent") with false.
      change ("last_sent" =? "index") with false.
      change ("last_sent" =? "last_sent") with true.
      cbn match. by rewrite lookup_singleton_eq. }
    split; [apply lookup_empty|]. split; [exact Hslot|].
    by apply (calls_inherited WORDS evs _ _ _ Hslot).
Qed.



(** X1.  The cursor of an ordinary conversation stays in range.  Let the
    catalog hold [T >= 1] entries and let [C] be an identifier whose cursor
    the call reads as a non-negative integer: [PROGRESS] has a record for
    [C] with such a cursor, or [PROGRESS[C]] is falsy and line 75 creates
    the record.  Then [pickNextWord(C)] stores a record for [C] whose
    cursor is in [[0, T)]. *)
Lemma pickNextWord_cursor_in_range (WORDS : list WordEntry) (ev : env)
    (C : string) (st : state) (z : Z) :
  0 < length WORDS →
  stored_cursor st C = Some z →
  (0 ≤ z)%Z →
  ∃ e', PROGRESS (fst (pickNextWord WORDS ev (VStr C) st)) !! C = Some e'
        ∧ in_range (length WORDS) (index e').
Proof.
  intros HT Hcur Hz0. unfold stored_cursor in Hcur.
  assert (Hfalsy : slot_truthy (PROGRESS_at st C) = false →
    ∃ e', PROGRESS (fst (pickNextWord WORDS ev (VStr C) st)) !! C = Some e'
          ∧ in_range (length WORDS) (index e')).
  { intros Hf. rewrite (pickNextWord_falsy _ _ _ _ Hf).
    cbn [fst written PROGRESS].
    eexists. split; [apply lookup_insert_eq|].
    exists (1 `mod` length WORDS). split.
    - apply (rem_succ 0 _ HT).
    - apply Nat.mod_upper_bound. lia. }
  destruct (PROGRESS_at st C) as [|e| |v] eqn:Hslot; [by apply Hfalsy| |done|].
  - pose proof (PROGRESS_at_own_inv _ _ _ Hslot) as Hown.
    destruct (index e) as [z'|] eqn:Hidx; [|done].
    injection Hcur as ->.
    rewrite (pickNextWord_own _ _ _ _ _ Hown). cbn [fst written PROGRESS].
    eexists. split; [apply lookup_insert_eq|].
    exists (S (Z.to_nat z) `mod` length WORDS). split.
    + unfold advance. cbn [index]. rewrite Hidx, <- rem_succ by done.
      by rewrite Z2Nat.id.
    + apply Nat.mod_upper_bound. lia.
  - destruct (slot_truthy (Inherited v)) eqn:Hf; [done|by apply Hfalsy].
Qed.

(** C10 (as the code behaves).  On a fresh process, take for the
    conversation identifier any of the twelve names a plain object
    inherits ([constructor], [toString], [__proto__], ...).  The call
    [pickNextWord] finds the built-in object under that name: whatever the
    catalog and the clock, it returns the index NaN and no entry, stores no
    record for the conversation in [PROGRESS], and leaves NaN as the [index]
    that [PROGRESS[name]?.index] reads afterwards.  The handler answers the
    request with its 500 response. *)
Theorem pickNextWord_inherited_names (WORDS : list WordEntry) (ev : env) :
  Forall
    (λ C,
       snd (pickNextWord WORDS ev (VStr C) fresh_state)
       = outcome ev {| pick_index := NaN; wordObj := None |}
       ∧ PROGRESS (fst (pickNextWord WORDS ev (VStr C) fresh_state)) !! C
         = None
       ∧ snd (opt_index (VStr C)
                (fst (pickNextWord WORDS ev (VStr C) fresh_state)))
         = Return (Some NaN)
       ∧ snd (agent WORDS ev (VObj [("channelId", VStr C)]) fresh_state)
         = Json500 "Agent internal error")
    Object_prototype_names.
Proof.
  apply Forall_forall. intros C HC%Object_prototype_names_inherited.
  pose proof (pickNextWord_inherited_fresh WORDS ev C HC) as Hrun.
  repeat split.
  - by rewrite Hrun.
  - by rewrite Hrun.
  - rewrite Hrun. cbn [fst]. rewrite opt_index_str.
    assert (Hb : PROGRESS_at
                   (written ev ∅ {[C := NaN]} {[C := now ev]} fresh_state) C
                 = Builtin).
    { apply PROGRESS_at_builtin. split; [apply lookup_empty|done]. }
    rewrite Hb. unfold builtin_index. cbn [intrinsics written snd].
    by rewrite lookup_singleton_eq.
  - assert (Hne : (C =? "") = false).
    { destruct C; [|done]. discriminate HC. }
    unfold agent, mastra_agent, agent_try.
    change (incomingText_of _ _ _)
      with (Return (ascii_toLowerCase (ascii_trim ""))).
    rewrite bind_run. cbn [lift is_sentence ascii_trim ascii_toLowerCase].
    cbn -[pickNextWord]. unfold js_or. cbn [truthy]. rewrite Hne.
    cbn [negb]. unfold daily_word. rewrite bind_run, Hrun.
    unfold outcome. by destruct (fs_ok ev).
Qed.

(** ** Acknowledgement of a sentence *)

Section Acknowledge.

Variable WORDS : list WordEntry.

(** X13.  A sentence from a conversation without a record is answered
    with the tip built around the generic sample, whatever the sentence. *)
Lemma acknowledge_never_served C t body st :
  PROGRESS_at st C = Absent →
  acknowledge WORDS (VStr C) t body st
  = (st, Return (buildResponsePayload body (tip "example") false)).
Proof.
  intros Hslot. unfold acknowledge.
  rewrite bind_run, opt_index_str, Hslot. reflexivity.
Qed.

(** So does a conversation whose cursor is 0, whatever was served to it:
    line 131 reads the cursor 0 as the absence of a cursor. *)
Lemma acknowledge_cursor_zero C e t body st :
  PROGRESS st !! C = Some e →
  index e = Int 0 →
  acknowledge WORDS (VStr C) t body st
  = (st, Return (buildResponsePayload body (tip "example") false)).
Proof.
  intros Hown%PROGRESS_at_own Hidx. unfold acknowledge.
  rewrite bind_run, opt_index_str, Hown, Hidx. reflexivity.
Qed.

Lemma rem_pred (i T : nat) :
  S i < T →
  js_rem (js_add (js_add (Int (Z.of_nat (S i))) (Int (Z.of_nat T))) (Int (-1)))
    (Int (Z.of_nat T))
  = Int (Z.of_nat i).
Proof.
  intros Hi. unfold js_rem, js_add.
  destruct (Z.eqb_spec (Z.of_nat T) 0) as [H0|_]; [lia|]. f_equal.
  replace (Z.of_nat (S i) + Z.of_nat T + -1)%Z
    with (Z.of_nat i + 1 * Z.of_nat T)%Z by lia.
  rewrite Z.rem_add by lia. apply Z.rem_small. lia.
Qed.

(** X12.  With a cursor [i + 1] in range, the last-served entry is the
    one at [i], one before the cursor, and the reply is praised exactly
    when the normalised text contains that entry's word as the catalog
    spells it; otherwise it gets the tip with that entry's example. *)
Lemma acknowledge_cursor_positive C e t body st (i : nat) (w : WordEntry) :
  PROGRESS st !! C = Some e →
  index e = Int (Z.of_nat (S i)) →
  S i < length WORDS →
  WORDS !! i = Some w →
  word w ≠ "" →
  acknowledge WORDS (VStr C) t body st
  = (st, Return (buildResponsePayload body
                   (if includes t (word w) then praise (word w)
                    else tip (example w))
                   false)).
Proof.
  intros Hown%PROGRESS_at_own Hidx Hi Hw Hne. unfold acknowledge.
  rewrite bind_run, opt_index_str, Hown, Hidx.
  cbn [num_truthy]. destruct (Z.eqb_spec (Z.of_nat (S i)) 0); [lia|].
  cbn [negb]. rewrite !bind_run, get_index_str, Hown, Hidx.
  cbn [ToNumber mret M_ret]. rewrite rem_pred by done.
  rewrite at_index_nat, Hw. rewrite bind_run.
  cbn [mret M_ret default from_option id].
  apply String.eqb_neq in Hne. rewrite Hne. cbn [negb andb].
  destruct (includes t (word w)); [reflexivity|].
  rewrite !bind_run. cbn [mbind option_bind]. rewrite at_index_nat, Hw.
  reflexivity.
Qed.

End Acknowledge.

(** *** Two runs *)


(** C2 (as the code behaves).  With the default catalog, the sixth
    empty-text request of the conversation [global] serves the last entry,
    [chat], and leaves the cursor at 0.  A reply that uses the word is then
    answered with the tip built around the generic sample [example]: the
    handler takes the cursor 0 for the absence of a served word. *)
Theorem acknowledge_after_last_entry :
  snd (agent DEFAULT_WORDS (clock "t6") (VObj []) served_five)
  = Json200 (buildResponsePayload (VObj []) (composed chat) true)
  ∧ PROGRESS served_six !! "global"
    = Some {| index := Int 0; last_sent := Some "t6" |}
  ∧ snd (agent DEFAULT_WORDS (clock "t7")
           (VObj [("text", VStr "J'adore mon chat")]) served_six)
    = Json200 (buildResponsePayload (VObj []) (tip "example") false).
Proof. repeat split; vm_compute; reflexivity. Qed.

(** C3 (as the code behaves).  With a catalog whose first word is [Paris],
    the conversation [global] is served that word, and the reply
    [J'adore Paris] is answered with the tip, not with the praise: the
    reply is lower-cased before the search, the served word is not. *)
Theorem acknowledge_capitalised_word :
  snd (agent CITY_WORDS (clock "t1") (VObj []) fresh_state)
  = Json200 (buildResponsePayload (VObj []) (composed Paris) true)
  ∧ PROGRESS served_Paris !! "global"
    = Some {| index := Int 1; last_sent := Some "t1" |}
  ∧ snd (agent CITY_WORDS (clock "t2")
           (VObj [("text", VStr "J'adore Paris")]) served_Paris)
    = Json200 (buildResponsePayload (VObj []) (tip (example Paris)) false).
Proof. repeat split; vm_compute; reflexivity. Qed.

(** ** Identifiers of any shape *)

(** Every access to [PROGRESS] sees the identifier through its property
    key only. *)
Lemma bind_ext {A B} (m m' : M A) (f f' : A → M B) :
  (∀ st, m st = m' st) → (∀ a st, f a st = f' a st) →
  ∀ st, (m ≫= f) st = (m' ≫= f') st.
Proof.
  intros Hm Hf st. rewrite !bind_run, Hm.
  destruct (m' st) as [st' [a|e]]; [apply Hf|done].
Qed.

Section Keys.

Variables (channelId : val) (key : string).
Hypothesis Hkey : ToPropertyKey channelId = Return key.

Lemma PROGRESS_get_key st :
  PROGRESS_get channelId st = PROGRESS_get (VStr key) st.
Proof. unfold PROGRESS_get. by rewrite Hkey. Qed.

Lemma PROGRESS_set_key e st :
  PROGRESS_set channelId e st = PROGRESS_set (VStr key) e st.
Proof. unfold PROGRESS_set. by rewrite Hkey. Qed.

Lemma get_index_key st : get_index channelId st = get_index (VStr key) st.
Proof. unfold get_index. by rewrite Hkey. Qed.

Lemma opt_index_key st : opt_index channelId st = opt_index (VStr key) st.
Proof. unfold opt_index. by rewrite Hkey. Qed.

Lemma set_index_key n st :
  set_index channelId n st = set_index (VStr key) n st.
Proof. unfold set_index. by rewrite Hkey. Qed.

Lemma set_last_sent_key t st :
  set_last_sent channelId t st = set_last_sent (VStr key) t st.
Proof. unfold set_last_sent. by rewrite Hkey. Qed.

Lemma pickNextWord_key WORDS ev st :
  pickNextWord WORDS ev channelId st = pickNextWord WORDS ev (VStr key) st.
Proof.
  unfold pickNextWord.
  apply bind_ext; [apply PROGRESS_get_key|]. intros cur st1.
  apply bind_ext; [destruct (slot_truthy cur); [done|apply PROGRESS_set_key]|].
  intros _ st2.
  apply bind_ext; [apply get_index_key|]. intros i st3.
  apply bind_ext; [apply get_index_key|]. intros j st4.
  apply bind_ext; [apply set_index_key|]. intros _ st5.
  apply bind_ext; [apply set_last_sent_key|]. done.
Qed.

End Keys.

(** An identifier without a property key (an object with an own
    [toString]) makes the first access throw, before any change. *)
Lemma pickNextWord_no_key WORDS ev channelId e st :
  ToPropertyKey channelId = Throw e →
  pickNextWord WORDS ev channelId st = (st, Throw e).
Proof.
  intros Hkey. unfold pickNextWord, PROGRESS_get.
  rewrite !bind_run, Hkey. reflexivity.
Qed.

(** *** Computations that leave the state alone *)

Lemma reads_only_bind {A B} (m : M A) (f : A → M B) :
  reads_only m → (∀ a, reads_only (f a)) → reads_only (m ≫= f).
Proof.
  intros Hm Hf st. rewrite bind_run. specialize (Hm st).
  destruct (m st) as [st' [a|e]]; cbn in Hm; subst; [apply Hf|done].
Qed.

Lemma reads_only_ret {A} (a : A) : reads_only (mret a).
Proof. done. Qed.

Lemma reads_only_throw {A} (e : exn) : reads_only (@throw A e).
Proof. done. Qed.

Lemma reads_only_lift {A} (r : result A) : reads_only (lift r).
Proof. done. Qed.

Lemma reads_only_gets {A} (f : state → A) : reads_only (gets f).
Proof. done. Qed.

Lemma reads_only_get_index channelId : reads_only (get_index channelId).
Proof.
  unfold get_index.
  apply reads_only_bind; [apply reads_only_lift|]. intros key.
  apply reads_only_bind; [apply reads_only_gets|]. intros [|e| |v].
  - apply reads_only_throw.
  - apply reads_only_ret.
  - apply reads_only_gets.
  - apply reads_only_gets.
Qed.

Lemma reads_only_opt_index channelId : reads_only (opt_index channelId).
Proof.
  unfold opt_index.
  apply reads_only_bind; [apply reads_only_lift|]. intros key.
  apply reads_only_bind; [apply reads_only_gets|]. intros [|e| |v].
  - apply reads_only_ret.
  - apply reads_only_ret.
  - apply reads_only_gets.
  - apply reads_only_gets.
Qed.

Lemma reads_only_acknowledge WORDS channelId incomingText body :
  reads_only (acknowledge WORDS channelId incomingText body).
Proof.
  unfold acknowledge.
  apply reads_only_bind; [apply reads_only_opt_index|]. intros cur.
  apply reads_only_bind.
  { destruct (num_truthy cur); [|apply reads_only_ret].
    apply reads_only_bind; [apply reads_only_get_index|]. intros i.
    apply reads_only_ret. }
  intros lastIndex.
  apply reads_only_bind.
  { destruct lastIndex as [li|]; [|apply reads_only_ret].
    destruct (at_index WORDS li);
      [apply reads_only_ret|apply reads_only_throw]. }
  intros lastWord.
  apply reads_only_bind; [|intros; apply reads_only_ret].
  match goal with |- reads_only (if ?b then _ else _) => destruct b end;
    [apply reads_only_ret|].
  apply reads_only_bind; [|intros; apply reads_only_ret].
  match goal with |- reads_only (if ?b then _ else _) => destruct b end;
    [|apply reads_only_ret].
  destruct (lastIndex ≫= at_index WORDS);
    [apply reads_only_ret|apply reads_only_throw].
Qed.

(** ** The handler *)

Section Handler.

Variable trim : string → string.
Variable toLowerCase : string → string.
Variable WORDS : list WordEntry.

Lemma is_sentence_triggers (t : string) :
  is_sentence t = false ↔ t ∈ trigger_phrases.
Proof.
  unfold is_sentence, trigger_phrases. cbn [existsb].
  rewrite !elem_of_cons, elem_of_nil.
  destruct (String.eqb_spec t "") as [->|H0]; [by split; [left|]|].
  destruct (String.eqb_spec t "daily word") as [->|H1];
    [by split; [right; left|rewrite andb_false_r]|].
  destruct (String.eqb_spec t "start") as [->|H2];
    [by split; [right; right; left|rewrite andb_false_r]|].
  destruct (String.eqb_spec t "help") as [->|H3];
    [by split; [right; right; right; left|rewrite andb_false_r]|].
  destruct t as [|c t']; [done|]. cbn. split; [done|].
  intros [?|[?|[?|[?|[]]]]]; congruence.
Qed.

Lemma agent_try_text ev req_body t st :
  incomingText_of trim toLowerCase (body_of req_body) = Return t →
  agent_try trim toLowerCase WORDS ev req_body st =
    if is_sentence t then
      acknowledge WORDS (channelId_of (body_of req_body)) t
        (body_of req_body) st
    else
      daily_word WORDS ev (channelId_of (body_of req_body))
        (body_of req_body) st.
Proof.
  intros Ht. unfold agent_try. rewrite bind_run, Ht. cbn [lift].
  by destruct (is_sentence t).
Qed.

(** C4.  Routing.  Let [t] be the text extracted from the payload, trimmed
    and lower-cased.  If [t] is the empty string or one of [daily word],
    [start], [help], the handler runs the daily-word branch, which calls
    [pickNextWord], and answers with its result; for every other [t] it runs
    the acknowledgement branch and answers with that one's result. *)
Theorem trigger_routing (ev : env) (req_body : val) (st : state)
    (t : string) :
  incomingText_of trim toLowerCase (body_of req_body) = Return t →
  let body := body_of req_body in
  (t ∈ trigger_phrases →
   mastra_agent trim toLowerCase WORDS ev req_body st
   = respond ((p ← pickNextWord WORDS ev (channelId_of body);
               text ← match wordObj p with
                      | Some w => mret (composed w)
                      | None => throw TypeError
                      end;
               mret (buildResponsePayload body text true)) st))
  ∧ (t ∉ trigger_phrases →
     mastra_agent trim toLowerCase WORDS ev req_body st
     = respond (acknowledge WORDS (channelId_of body) t body st)).
Proof.
  intros Ht body. unfold mastra_agent.
  rewrite (agent_try_text _ _ _ _ Ht). split; intros Hin.
  - apply is_sentence_triggers in Hin. by rewrite Hin.
  - destruct (is_sentence t) eqn:Hs; [done|].
    by apply is_sentence_triggers in Hs.
Qed.

(** C5.  The acknowledgement branch is a pure reader.  For a request whose
    normalised text routes it to the acknowledgement, the state after the
    handler is the state before it: every conversation's record ([index]
    and [last_sent]) is the same, and the log of writes to [progress.json]
    has not grown. *)
Theorem acknowledgement_keeps_progress (ev : env) (req_body : val)
    (st : state) (t : string) :
  incomingText_of trim toLowerCase (body_of req_body) = Return t →
  t ∉ trigger_phrases →
  fst (mastra_agent trim toLowerCase WORDS ev req_body st) = st.
Proof.
  intros Ht Hin. unfold mastra_agent.
  rewrite (agent_try_text _ _ _ _ Ht).
  destruct (is_sentence t) eqn:Hs;
    [|by apply is_sentence_triggers in Hs].
  pose proof (reads_only_acknowledge WORDS
                (channelId_of (body_of req_body)) t
                (body_of req_body) st) as Hro.
  destruct (acknowledge _ _ _ _ _) as [st' [p|e]]; exact Hro.
Qed.

(** With a refused write, [pickNextWord] throws, whatever the identifier
    and the state. *)
Lemma pickNextWord_refused_write ev channelId st :
  fs_ok ev = false →
  ∃ e, snd (pickNextWord WORDS ev channelId st) = Throw e.
Proof.
  intros Hfs. destruct (ToPropertyKey channelId) as [key|e] eqn:Hkey.
  - rewrite (pickNextWord_key _ _ Hkey).
    destruct (slot_truthy (PROGRESS_at st key)) eqn:Htruthy.
    + destruct (PROGRESS_at st key) as [|e| |v] eqn:Hslot; [done| | |].
      * exists IOError.
        rewrite (pickNextWord_own _ _ _ _ _ (PROGRESS_at_own_inv _ _ _ Hslot)).
        unfold outcome. by rewrite Hfs.
      * exists IOError. rewrite (pickNextWord_builtin _ _ _ _ Hslot).
        unfold outcome. by rewrite Hfs.
      * exists TypeError.
        by rewrite (pickNextWord_inherited _ _ _ _ _ Hslot Htruthy).
    + exists IOError. rewrite (pickNextWord_falsy _ _ _ _ Htruthy).
      unfold outcome. by rewrite Hfs.
  - exists e. by rewrite (pickNextWord_no_key _ _ _ _ _ Hkey).
Qed.

(** C7.  A refused write.  For a daily-word request (normalised text empty
    or a trigger phrase) whose write to [progress.json] is refused, the
    handler answers with the 500 response [{ error: "Agent internal error" }]
    and not with a payload; and that constant text is the only error the
    handler ever reports, whatever went wrong. *)
Theorem refused_write_is_internal_error (ev : env) (req_body : val)
    (st : state) (t : string) :
  incomingText_of trim toLowerCase (body_of req_body) = Return t →
  t ∈ trigger_phrases →
  fs_ok ev = false →
  snd (mastra_agent trim toLowerCase WORDS ev req_body st)
  = Json500 "Agent internal error"
  ∧ ∀ ev' req_body' st' error,
      snd (mastra_agent trim toLowerCase WORDS ev' req_body' st')
      = Json500 error →
      error = "Agent internal error".
Proof.
  intros Ht Hin Hfs. split.
  - unfold mastra_agent. rewrite (agent_try_text _ _ _ _ Ht).
    apply is_sentence_triggers in Hin. rewrite Hin.
    unfold daily_word. rewrite bind_run.
    destruct (pickNextWord_refused_write ev
                (channelId_of (body_of req_body)) st Hfs) as [e He].
    destruct (pickNextWord _ _ _ _) as [st' r]. cbn in He. by subst r.
  - intros ev' req' st' error. unfold mastra_agent, respond.
    destruct (agent_try _ _ _ _ _ _) as [st'' [p|e]]; cbn; congruence.
Qed.

(** [split("/")[0]] is the first segment: it holds no slash, and the
    address is that segment alone or that segment, a slash and a rest. *)
Lemma split_slash_0_segment (address : string) :
  includes (split_slash_0 address) "/" = false
  ∧ (address = split_slash_0 address
     ∨ ∃ rest, address = split_slash_0 address ++ "/" ++ rest).
Proof.
  induction address as [|c rest [IHno IHsplit]]; [by split; [|left]|].
  cbn [split_slash_0]. destruct (Ascii.eqb_spec c "/") as [->|Hc].
  - split; [done|]. right. by exists rest.
  - split.
    + change (String.prefix "/" (String c (split_slash_0 rest))
              || includes (split_slash_0 rest) "/" = false).
      rewrite IHno, orb_false_r. cbn [String.prefix].
      by destruct (ascii_dec "/" c) as [<-|_].
    + destruct IHsplit as [Heq|[rest' Heq]].
      * left. by f_equal.
      * right. exists rest'.
        change (String c rest
                = String c (split_slash_0 rest ++ "/" ++ rest')).
        by f_equal.
Qed.

(** C8.  The conversation identifier.  The identifier the handler works
    with is the first of the four probes, taken in the order channel
    object id, top-level channel id, first segment of a string address,
    metadata channel id, that yields a value, and [global] if none does;
    the third probe, on a string address, is the text before its first
    slash. *)
Theorem channelId_probe_order (req_body : val) :
  channelId_of (body_of req_body) = first_probe_or_global req_body
  ∧ ∀ address,
      opt_get req_body "address" = VStr address →
      probes req_body !! 2 = Some (VStr (split_slash_0 address))
      ∧ includes (split_slash_0 address) "/" = false
      ∧ (address = split_slash_0 address
         ∨ ∃ rest, address = split_slash_0 address ++ "/" ++ rest).
Proof.
  split.
  - assert (Hget : ∀ k,
              opt_get (body_of req_body) k = opt_get req_body k).
    { intros k. unfold body_of, js_or.
      destruct (truthy req_body) eqn:Htr; [done|].
      by destruct req_body. }
    unfold first_probe_or_global, probes, channelId_of.
    rewrite !Hget. unfold js_or. cbn [find].
    repeat match goal with
           | |- context [if truthy ?v then _ else _] => destruct (truthy v)
           end; reflexivity.
  - intros address Haddr. split; [|apply split_slash_0_segment].
    unfold probes. cbn. by rewrite Haddr.
Qed.

End Handler.

(** ** The cursors of the stored records *)

Section Invariant.

Variable trim : string → string.
Variable toLowerCase : string → string.
Variable WORDS : list WordEntry.
Hypothesis catalog_not_empty : 0 < length WORDS.

Lemma in_range_advance (t : string) (e : entry) :
  in_range (length WORDS) (index e) →
  in_range (length WORDS)
    (index (advance (Int (Z.of_nat (length WORDS))) t e)).
Proof.
  intros (i & Hi & Hlt). exists (S i `mod` length WORDS). split.
  - unfold advance. cbn [index]. rewrite Hi. by apply rem_succ.
  - apply Nat.mod_upper_bound. lia.
Qed.

(** [pickNextWord] keeps every stored cursor in range, whatever the
    identifier it is called with. *)
Lemma pickNextWord_keeps_range ev channelId st :
  cursors_in_range (length WORDS) st →
  cursors_in_range (length WORDS) (fst (pickNextWord WORDS ev channelId st)).
Proof.
  intros Hwf. destruct (ToPropertyKey channelId) as [key|e] eqn:Hkey.
  - rewrite (pickNextWord_key _ _ Hkey).
    destruct (slot_truthy (PROGRESS_at st key)) eqn:Htruthy.
    + destruct (PROGRESS_at st key) as [|e| |v] eqn:Hslot; [done| | |].
      * pose proof (PROGRESS_at_own_inv _ _ _ Hslot) as Hown.
        rewrite (pickNextWord_own _ _ _ _ _ Hown). intros C e'. cbn.
        destruct (decide (key = C)) as [->|Hne].
        -- rewrite lookup_insert_eq. intros [= <-]. apply in_range_advance.
           by apply (Hwf C).
        -- rewrite lookup_insert_ne by done. apply Hwf.
      * by rewrite (pickNextWord_builtin _ _ _ _ Hslot).
      * by rewrite (pickNextWord_inherited _ _ _ _ _ Hslot Htruthy).
    + rewrite (pickNextWord_falsy _ _ _ _ Htruthy). intros C e'. cbn.
      destruct (decide (key = C)) as [->|Hne].
      * rewrite lookup_insert_eq. intros [= <-]. apply in_range_advance.
        exists 0. split; [done|lia].
      * rewrite lookup_insert_ne by done. apply Hwf.
  - by rewrite (pickNextWord_no_key _ _ _ _ _ Hkey).
Qed.

Lemma daily_word_state ev channelId body st :
  fst (daily_word WORDS ev channelId body st)
  = fst (pickNextWord WORDS ev channelId st).
Proof.
  unfold daily_word. rewrite bind_run.
  destruct (pickNextWord WORDS ev channelId st) as [st' [p|e]]; [|done].
  rewrite bind_run. by destruct (wordObj p).
Qed.

(** So does the handler, on every request. *)
Lemma mastra_agent_keeps_range ev req_body st :
  cursors_in_range (length WORDS) st →
  cursors_in_range (length WORDS)
    (fst (mastra_agent trim toLowerCase WORDS ev req_body st)).
Proof.
  intros Hwf.
  assert (Hfst : ∀ r : state * result payload, fst (respond r) = fst r)
    by by intros [st' [p|e]].
  unfold mastra_agent. rewrite Hfst. unfold agent_try. rewrite bind_run.
  destruct (incomingText_of trim toLowerCase (body_of req_body)) as [t|e];
    cbn [lift]; [|done].
  destruct (is_sentence t).
  - by rewrite reads_only_acknowledge.
  - rewrite daily_word_state. by apply pickNextWord_keeps_range.
Qed.

(** X2.  Every state the handler reaches from a fresh process, by any
    sequence of requests on a non-empty catalog, has all its stored
    cursors in range. *)
Lemma reachable_cursors_in_range reqs :
  cursors_in_range (length WORDS)
    (after_requests trim toLowerCase WORDS reqs fresh_state).
Proof.
  assert (Hgen : ∀ st, cursors_in_range (length WORDS) st →
            cursors_in_range (length WORDS)
              (after_requests trim toLowerCase WORDS reqs st)).
  { induction reqs as [|[ev body] rest IH]; intros st Hwf; [done|].
    cbn [after_requests]. apply IH. by apply mastra_agent_keeps_range. }
  apply Hgen. intros C e. cbn. by rewrite lookup_empty.
Qed.

End Invariant.

(** ** Loading the catalog *)

(** C6.  Catalog loading is total and never yields an empty catalog.  For
    every state of [french_words.json] and every behaviour of the parser,
    the loaded catalog has at least one entry; it is the built-in default
    list when the file is missing, cannot be read, does not parse, parses
    to something that is not an array, or parses to an empty array; and it
    is the parsed array when that array is not empty. *)
Theorem load_WORDS_fallback (JSON_parse : string → option parsed)
    (f : words_file) :
  (1 ≤ length (load_WORDS JSON_parse f))%nat
  ∧ (existsSync f = false → load_WORDS JSON_parse f = DEFAULT_WORDS)
  ∧ (readFileSync f = None → load_WORDS JSON_parse f = DEFAULT_WORDS)
  ∧ (∀ raw, readFileSync f = Some raw → JSON_parse raw = None →
            load_WORDS JSON_parse f = DEFAULT_WORDS)
  ∧ (∀ raw, readFileSync f = Some raw →
            JSON_parse raw = Some NotAnArray →
            load_WORDS JSON_parse f = DEFAULT_WORDS)
  ∧ (∀ raw, readFileSync f = Some raw →
            JSON_parse raw = Some (AnArray []) →
            load_WORDS JSON_parse f = DEFAULT_WORDS)
  ∧ (∀ raw entries, existsSync f = true → readFileSync f = Some raw →
            JSON_parse raw = Some (AnArray entries) → entries ≠ [] →
            load_WORDS JSON_parse f = entries).
Proof.
  unfold load_WORDS. destruct f as [ex rd]. cbn [existsSync readFileSync].
  repeat split.
  - destruct ex; [|cbn; lia]. destruct rd as [raw|]; [|cbn; lia]. cbn.
    destruct (JSON_parse raw) as [[|entries]|]; try (cbn; lia).
    destruct entries; cbn; lia.
  - by intros ->.
  - intros ->. by destruct ex.
  - intros raw -> Hp. cbn. rewrite Hp. by destruct ex.
  - intros raw -> Hp. cbn. rewrite Hp. by destruct ex.
  - intros raw -> Hp. cbn. rewrite Hp. by destruct ex.
  - intros raw entries -> -> Hp Hne. cbn. rewrite Hp.
    by destruct entries.
Qed.

(** ** A conversation from its first request *)

(** A payload without identifier and without text, on a fresh process with
    the default catalog, is answered with the word [bonjour] and leaves the
    cursor of the conversation [global] at 1; the same request again is
    answered with [merci] and leaves the cursor at 2; the reply
    [merci beaucoup mon ami] is then praised for the word [merci], and the
    cursor stays at 2. *)
Example first_requests :
  agent DEFAULT_WORDS (clock "t1") (VObj []) fresh_state
  = (served_one, Json200 (buildResponsePayload (VObj []) (composed bonjour)
                            true))
  ∧ PROGRESS served_one !! "global"
    = Some {| index := Int 1; last_sent := Some "t1" |}
  ∧ agent DEFAULT_WORDS (clock "t2") (VObj []) served_one
    = (served_two, Json200 (buildResponsePayload (VObj []) (composed merci)
                              true))
  ∧ PROGRESS served_two !! "global"
    = Some {| index := Int 2; last_sent := Some "t2" |}
  ∧ agent DEFAULT_WORDS (clock "t3")
      (VObj [("text", VStr "merci beaucoup mon ami")]) served_two
    = (served_two, Json200 (buildResponsePayload (VObj []) (praise "merci")
                              false)).
Proof. repeat split; vm_compute; reflexivity. Qed.

(** ** The theorems above at concrete requests *)

Lemma trigger_routing_witness :
  snd (agent DEFAULT_WORDS (clock "t1")
         (VObj [("text", VStr "  Daily Word ")]) fresh_state)
  = Json200 (buildResponsePayload (VObj []) (composed bonjour) true)
  ∧ snd (agent DEFAULT_WORDS (clock "t2")
           (VObj [("text", VStr "Bonjour tout le monde")]) served_one)
    = Json200 (buildResponsePayload (VObj []) (praise "bonjour") false).
Proof.
  unfold agent. split.
  - rewrite (proj1 (trigger_routing ascii_trim ascii_toLowerCase
                      DEFAULT_WORDS (clock "t1")
                      (VObj [("text", VStr "  Daily Word ")]) fresh_state
                      "daily word" eq_refl)
               ltac:(by apply (bool_decide_unpack _))).
    vm_compute. reflexivity.
  - rewrite (proj2 (trigger_routing ascii_trim ascii_toLowerCase
                      DEFAULT_WORDS (clock "t2")
                      (VObj [("text", VStr "Bonjour tout le monde")])
                      served_one "bonjour tout le monde" eq_refl)
               ltac:(by apply (bool_decide_unpack _))).
    vm_compute. reflexivity.
Defined.

Lemma acknowledgement_keeps_progress_witness :
  fst (agent DEFAULT_WORDS (clock "t6")
         (VObj [("text", VStr "Mon chien est mignon")]) served_five)
  = served_five.
Proof.
  exact (acknowledgement_keeps_progress ascii_trim ascii_toLowerCase
           DEFAULT_WORDS (clock "t6")
           (VObj [("text", VStr "Mon chien est mignon")]) served_five
           "mon chien est mignon" eq_refl
           ltac:(by apply (bool_decide_unpack _))).
Defined.

Lemma refused_write_is_internal_error_witness :
  snd (agent DEFAULT_WORDS (disk_full "t1")
         (VObj [("text", VStr "start")]) fresh_state)
  = Json500 "Agent internal error".
Proof.
  exact (proj1 (refused_write_is_internal_error ascii_trim ascii_toLowerCase
                  DEFAULT_WORDS (disk_full "t1")
                  (VObj [("text", VStr "start")]) fresh_state "start"
                  eq_refl ltac:(by apply (bool_decide_unpack _)) eq_refl)).
Defined.

Lemma pickNextWord_cursor_in_range_witness :
  ∃ e', PROGRESS (fst (pickNextWord DEFAULT_WORDS (clock "t7")
                         (VStr "global") served_six)) !! "global" = Some e'
        ∧ in_range 6 (index e').
Proof.
  apply (pickNextWord_cursor_in_range DEFAULT_WORDS (clock "t7") "global"
           served_six 0).
  - cbn. lia.
  - vm_compute. reflexivity.
  - lia.
Defined.

Lemma acknowledge_cursor_zero_witness :
  acknowledge DEFAULT_WORDS (VStr "global") "j'adore mon chat" (VObj [])
    served_six
  = (served_six,
     Return (buildResponsePayload (VObj []) (tip "example") false)).
Proof.
  apply (acknowledge_cursor_zero DEFAULT_WORDS "global"
           {| index := Int 0; last_sent := Some "t6" |}).
  - vm_compute. reflexivity.
  - reflexivity.
Defined.

Lemma acknowledge_cursor_positive_witness :
  acknowledge DEFAULT_WORDS (VStr "global") "bonjour tout le monde"
    (VObj []) served_one
  = (served_one,
     Return (buildResponsePayload (VObj []) (praise "bonjour") false)).
Proof.
  apply (acknowledge_cursor_positive DEFAULT_WORDS "global"
           {| index := Int 1; last_sent := Some "t1" |}
           "bonjour tout le monde" (VObj []) served_one 0 bonjour).
  - vm_compute. reflexivity.
  - reflexivity.
  - cbn. lia.
  - reflexivity.
  - discriminate.
Defined.

(** * Further properties of the handler *)

(** ** A rotation from any stored cursor *)

Section Rotation.

Variable WORDS : list WordEntry.

Lemma js_rem_nonneg (z : Z) (T : nat) :
  (0 ≤ z)%Z → 0 < T →
  js_rem (Int z) (Int (Z.of_nat T)) = Int (z `mod` Z.of_nat T).
Proof.
  intros Hz HT. unfold js_rem.
  destruct (Z.eqb_spec (Z.of_nat T) 0) as [H0|_]; [lia|].
  f_equal. apply Z.rem_mod_nonneg; lia.
Qed.

Lemma pickNextWord_from_cursor ev key st (z : Z) :
  0 < length WORDS →
  stored_cursor st key = Some z →
  (0 ≤ z)%Z →
  pickNextWord WORDS ev (VStr key) st
  = (written ev
       (<[key := {| index := Int ((z + 1) `mod` Z.of_nat (length WORDS));
                    last_sent := Some (now ev) |}]> (PROGRESS st))
       (intrinsics st) (stamps st) st,
     outcome ev (served WORDS (Int (z `mod` Z.of_nat (length WORDS))))).
Proof.
  intros HT Hcur Hz. unfold stored_cursor in Hcur.
  assert (Hfalsy : slot_truthy (PROGRESS_at st key) = false → z = 0%Z →
    pickNextWord WORDS ev (VStr key) st
    = (written ev
         (<[key := {| index := Int ((z + 1) `mod` Z.of_nat (length WORDS));
                      last_sent := Some (now ev) |}]> (PROGRESS st))
         (intrinsics st) (stamps st) st,
       outcome ev (served WORDS (Int (z `mod` Z.of_nat (length WORDS)))))).
  { intros Hf ->. rewrite (pickNextWord_falsy _ _ _ _ Hf).
    unfold advance. cbn [index js_add].
    by rewrite !js_rem_nonneg by lia. }
  destruct (PROGRESS_at st key) as [|e| |v] eqn:Hslot; [| |done|].
  - injection Hcur as <-. by apply Hfalsy.
  - destruct (index e) as [z'|] eqn:Hidx; [|done]. injection Hcur as ->.
    rewrite (pickNextWord_own _ _ _ _ _ (PROGRESS_at_own_inv _ _ _ Hslot)).
    unfold advance. rewrite Hidx. cbn [js_add].
    by rewrite !js_rem_nonneg by lia.
  - destruct (slot_truthy (Inherited v)) eqn:Hf; [done|].
    injection Hcur as <-. by apply Hfalsy.
Qed.

Lemma served_in_catalog (z : Z) :
  0 < length WORDS → (0 ≤ z)%Z →
  ∃ w, WORDS !! Z.to_nat (z `mod` Z.of_nat (length WORDS)) = Some w
       ∧ served WORDS (Int (z `mod` Z.of_nat (length WORDS)))
         = {| pick_index := Int (z `mod` Z.of_nat (length WORDS));
              wordObj := Some w |}.
Proof.
  intros HT Hz.
  assert (0 ≤ z `mod` Z.of_nat (length WORDS) < Z.of_nat (length WORDS))%Z
    as Hm by (apply Z.mod_pos_bound; lia).
  destruct (lookup_lt_is_Some_2 WORDS
              (Z.to_nat (z `mod` Z.of_nat (length WORDS)))) as [w Hw]; [lia|].
  exists w. split; [done|]. unfold served, at_index.
  destruct (Z.ltb_spec (z `mod` Z.of_nat (length WORDS)) 0); [lia|].
  by rewrite Hw.
Qed.

(** The state a call leaves is the state it found, when it threw before any
    change, or a state written to disk. *)
Lemma pickNextWord_shape ev channelId st :
  (∃ e, pickNextWord WORDS ev channelId st = (st, Throw e))
  ∨ ∃ key own builtins marks r,
      ToPropertyKey channelId = Return key
      ∧ pickNextWord WORDS ev channelId st
        = (written ev own builtins marks st, r)
      ∧ (∀ B, B ≠ key → own !! B = PROGRESS st !! B)
      ∧ (is_Some (PROGRESS st !! key) → is_Some (own !! key))
      ∧ (own !! key = None → PROGRESS st !! key = None).
Proof.
  destruct (ToPropertyKey channelId) as [key|e] eqn:Hkey.
  - rewrite (pickNextWord_key _ _ Hkey).
    destruct (slot_truthy (PROGRESS_at st key)) eqn:Htruthy.
    + destruct (PROGRESS_at st key) as [|e| |v] eqn:Hslot; [done| | |].
      * pose proof (PROGRESS_at_own_inv _ _ _ Hslot) as Hown.
        rewrite (pickNextWord_own _ _ _ _ _ Hown).
        right. exists key. eexists _, _, _, _.
        split; [done|]. split; [done|]. split; [|split].
        -- intros B HB. by rewrite lookup_insert_ne.
        -- intros _. by rewrite lookup_insert_eq.
        -- by rewrite lookup_insert_eq.
      * rewrite (pickNextWord_builtin _ _ _ _ Hslot).
        right. exists key. eexists _, _, _, _.
        split; [done|]. split; [done|]. split; [done|].
        split; [done|done].
      * left. exists TypeError.
        by rewrite (pickNextWord_inherited _ _ _ _ _ Hslot Htruthy).
    + rewrite (pickNextWord_falsy _ _ _ _ Htruthy).
      right. exists key. eexists _, _, _, _.
      split; [done|]. split; [done|]. split; [|split].
      * intros B HB. by rewrite lookup_insert_ne.
      * intros _. by rewrite lookup_insert_eq.
      * by rewrite lookup_insert_eq.
  - left. exists e. by rewrite (pickNextWord_no_key _ _ _ _ _ Hkey).
Qed.

End Rotation.

(** ** Requests *)

Section Requests.

Variable trim : string → string.
Variable toLowerCase : string → string.
Variable WORDS : list WordEntry.

Lemma acknowledge_key channelId key t body st :
  ToPropertyKey channelId = Return key →
  acknowledge WORDS channelId t body st
  = acknowledge WORDS (VStr key) t body st.
Proof.
  intros Hkey. unfold acknowledge.
  apply bind_ext; [apply (opt_index_key _ _ Hkey)|]. intros cur st1.
  apply bind_ext; [|done]. intros st2.
  destruct (num_truthy cur); [|done].
  apply bind_ext; [apply (get_index_key _ _ Hkey)|done].
Qed.

Lemma acknowledge_no_key channelId e t body st :
  ToPropertyKey channelId = Throw e →
  acknowledge WORDS channelId t body st = (st, Throw e).
Proof.
  intros Hkey. unfold acknowledge, opt_index.
  rewrite !bind_run, Hkey. reflexivity.
Qed.

Lemma respond_state (r : state * result payload) : fst (respond r) = fst r.
Proof. by destruct r as [st [p|e]]. Qed.

(** The state after a request: untouched, or written by the one rotation
    the request ran. *)
Lemma mastra_agent_state ev req_body st :
  fst (mastra_agent trim toLowerCase WORDS ev req_body st) = st
  ∨ ∃ key own builtins marks,
      ToPropertyKey (channelId_of (body_of req_body)) = Return key
      ∧ fst (mastra_agent trim toLowerCase WORDS ev req_body st)
        = written ev own builtins marks st
      ∧ (∀ B, B ≠ key → own !! B = PROGRESS st !! B)
      ∧ (is_Some (PROGRESS st !! key) → is_Some (own !! key))
      ∧ (own !! key = None → PROGRESS st !! key = None).
Proof.
  unfold mastra_agent. rewrite respond_state. unfold agent_try.
  rewrite bind_run.
  destruct (incomingText_of trim toLowerCase (body_of req_body)) as [t|e];
    cbn [lift]; [|by left].
  destruct (is_sentence t).
  - left. apply reads_only_acknowledge.
  - rewrite daily_word_state.
    destruct (pickNextWord_shape WORDS ev (channelId_of (body_of req_body))
                st) as [[e Hrun]|(key & own & bs & ms & r & Hk & Hrun & H)].
    + left. by rewrite Hrun.
    + right. exists key, own, bs, ms. split; [done|]. by rewrite Hrun.
Qed.

(** A daily-word request of a conversation with a non-negative cursor, on
    a non-empty catalog. *)
Lemma daily_request_run ev req_body st t key (z : Z) :
  0 < length WORDS →
  incomingText_of trim toLowerCase (body_of req_body) = Return t →
  t ∈ trigger_phrases →
  ToPropertyKey (channelId_of (body_of req_body)) = Return key →
  stored_cursor st key = Some z →
  (0 ≤ z)%Z →
  ∃ w, WORDS !! Z.to_nat (z `mod` Z.of_nat (length WORDS)) = Some w
       ∧ mastra_agent trim toLowerCase WORDS ev req_body st
         = (written ev
              (<[key := {| index := Int ((z + 1)
                                           `mod` Z.of_nat (length WORDS));
                           last_sent := Some (now ev) |}]> (PROGRESS st))
              (intrinsics st) (stamps st) st,
            if fs_ok ev
            then Json200 (buildResponsePayload (body_of req_body)
                            (composed w) true)
            else Json500 "Agent internal error").
Proof.
  intros HT Ht Hin Hkey Hcur Hz.
  destruct (served_in_catalog WORDS z HT Hz) as (w & Hw & Hserved).
  exists w. split; [done|].
  unfold mastra_agent. rewrite (agent_try_text _ _ _ _ _ _ _ Ht).
  apply is_sentence_triggers in Hin. rewrite Hin.
  unfold daily_word. rewrite bind_run, (pickNextWord_key _ _ Hkey).
  rewrite (pickNextWord_from_cursor _ _ _ _ _ HT Hcur Hz), Hserved.
  unfold outcome. by destruct (fs_ok ev).
Qed.

End Requests.

Section Coverage.

Variable trim : string → string.
Variable toLowerCase : string → string.
Variable WORDS : list WordEntry.

(** X3.  A daily-word request that goes through.  Let the catalog hold
    [T >= 1] entries, let every number of the payload be a safe integer
    (below [2^53] in absolute value, so that its conversion to a string is
    its decimal digits), and let the cursor the request reads for its
    conversation be an integer [z] with [0 <= z < 2^53]: 0 where
    [PROGRESS[key]] is falsy, and possibly [T] or more when the record was
    written under a longer catalog.  If the write is accepted, the answer
    is the 200 payload with the text of the entry at [z mod T] and the two
    buttons, and the record becomes cursor [(z + 1) mod T] with the clock
    reading of the request; one write is logged and nothing else
    changes. *)
Theorem daily_request_serves ev req_body st t key (z : Z) :
  0 < length WORDS →
  safe_numbers req_body = true →
  incomingText_of trim toLowerCase (body_of req_body) = Return t →
  t ∈ trigger_phrases →
  ToPropertyKey (channelId_of (body_of req_body)) = Return key →
  stored_cursor st key = Some z →
  (0 ≤ z < 2 ^ 53)%Z →
  fs_ok ev = true →
  ∃ w, WORDS !! Z.to_nat (z `mod` Z.of_nat (length WORDS)) = Some w
       ∧ mastra_agent trim toLowerCase WORDS ev req_body st
         = (written ev
              (<[key := {| index := Int ((z + 1)
                                           `mod` Z.of_nat (length WORDS));
                           last_sent := Some (now ev) |}]> (PROGRESS st))
              (intrinsics st) (stamps st) st,
            Json200 (buildResponsePayload (body_of req_body)
                       (composed w) true)).
Proof.
  intros HT _ Ht Hin Hkey Hcur [Hz _] Hfs.
  destruct (daily_request_run trim toLowerCase WORDS ev req_body st t key z
              HT Ht Hin Hkey Hcur Hz) as (w & Hw & Hrun).
  exists w. split; [done|]. by rewrite Hrun, Hfs.
Qed.

(** X4.  A refused write loses a word.  Under the conditions of the
    previous property (a non-empty catalog, safe integers in the payload, a
    cursor [z] with [0 <= z < 2^53]), when the write of a daily-word
    request is refused, the answer is the 500 response, yet the cursor has
    already moved in memory: the same request repeated with a working disk
    is answered with the entry at [(z + 1) mod T], and the entry at
    [z mod T] is not delivered in this round. *)
Theorem refused_write_skips_entry ev1 ev2 req_body st t key (z : Z) :
  0 < length WORDS →
  safe_numbers req_body = true →
  incomingText_of trim toLowerCase (body_of req_body) = Return t →
  t ∈ trigger_phrases →
  ToPropertyKey (channelId_of (body_of req_body)) = Return key →
  stored_cursor st key = Some z →
  (0 ≤ z < 2 ^ 53)%Z →
  fs_ok ev1 = false →
  fs_ok ev2 = true →
  snd (mastra_agent trim toLowerCase WORDS ev1 req_body st)
  = Json500 "Agent internal error"
  ∧ ∃ w, WORDS !! Z.to_nat ((z + 1) `mod` Z.of_nat (length WORDS)) = Some w
         ∧ snd (mastra_agent trim toLowerCase WORDS ev2 req_body
                  (fst (mastra_agent trim toLowerCase WORDS ev1 req_body st)))
           = Json200 (buildResponsePayload (body_of req_body)
                        (composed w) true).
Proof.
  intros HT _ Ht Hin Hkey Hcur [Hz _] Hfs1 Hfs2.
  destruct (daily_request_run trim toLowerCase WORDS ev1 req_body st t key z
              HT Ht Hin Hkey Hcur Hz) as (w0 & _ & Hrun1).
  rewrite Hrun1, Hfs1. cbn [fst snd]. split; [done|].
  set (z1 := ((z + 1) `mod` Z.of_nat (length WORDS))%Z).
  assert (0 ≤ z1 < Z.of_nat (length WORDS))%Z as Hz1
    by (apply Z.mod_pos_bound; lia).
  set (st1 := written ev1 _ _ _ st).
  assert (Hcur1 : stored_cursor st1 key = Some z1).
  { unfold stored_cursor.
    by rewrite (PROGRESS_at_own st1 key _ (lookup_insert_eq _ _ _)). }
  destruct (daily_request_run trim toLowerCase WORDS ev2 req_body st1 t key
              z1 HT Ht Hin Hkey Hcur1 (proj1 Hz1)) as (w & Hw & Hrun2).
  rewrite Z.mod_small in Hw by done.
  exists w. split; [done|]. by rewrite Hrun2, Hfs2.
Qed.




(** X6.  At most one write per request.  A request leaves the log of
    writes as it was or adds one write to it, and that write carries the
    records as they are in memory after the request. *)
Theorem one_write_per_request ev req_body st :
  fs_log (fst (mastra_agent trim toLowerCase WORDS ev req_body st))
  = fs_log st
  ∨ fs_log (fst (mastra_agent trim toLowerCase WORDS ev req_body st))
    = {| content :=
           PROGRESS (fst (mastra_agent trim toLowerCase WORDS ev req_body st));
         completed := fs_ok ev |} :: fs_log st.
Proof.
  destruct (mastra_agent_state trim toLowerCase WORDS ev req_body st)
    as [->|(key & own & bs & ms & _ & -> & _)]; [by left|by right].
Qed.

(** X7.  A request touches one conversation.  For a payload whose numbers
    are all safe integers (below [2^53] in absolute value, so that the
    identifier converts to the property key the model computes), the record
    of every key other than the one the request's identifier converts to is
    the same after the request as before. *)
Theorem request_frame ev req_body st (B : string) :
  safe_numbers req_body = true →
  ToPropertyKey (channelId_of (body_of req_body)) ≠ Return B →
  PROGRESS (fst (mastra_agent trim toLowerCase WORDS ev req_body st)) !! B
  = PROGRESS st !! B.
Proof.
  intros _ Hne.
  destruct (mastra_agent_state trim toLowerCase WORDS ev req_body st)
    as [->|(key & own & bs & ms & Hkey & -> & Hframe & _)]; [done|].
  cbn. apply Hframe. intros ->. by apply Hne.
Qed.

Lemma request_keeps_records ev req_body st (B : string) :
  is_Some (PROGRESS st !! B) →
  is_Some (PROGRESS (fst (mastra_agent trim toLowerCase WORDS ev req_body st))
             !! B).
Proof.
  intros HB.
  destruct (mastra_agent_state trim toLowerCase WORDS ev req_body st)
    as [->|(key & own & bs & ms & Hkey & -> & Hframe & Hkeep & _)]; [done|].
  cbn. destruct (decide (B = key)) as [->|Hne]; [by apply Hkeep|].
  by rewrite Hframe.
Qed.

(** X8.  Records are never removed.  A conversation that has a record
    keeps one through any sequence of requests, of any conversations. *)
Theorem records_never_removed (reqs : list (env * val)) (st : state)
    (B : string) :
  is_Some (PROGRESS st !! B) →
  is_Some (PROGRESS (after_requests trim toLowerCase WORDS reqs st) !! B).
Proof.
  revert st. induction reqs as [|[ev body] rest IH]; intros st HB; [done|].
  cbn [after_requests]. apply IH. by apply request_keeps_records.
Qed.

(** X10.  Values without a string form.  When the text of the payload or
    its identifier cannot be converted to a string (an object, or an array
    holding one, with an own property [toString]), the request is answered
    with the 500 response and the state is left as it was. *)
Theorem no_string_form_is_internal_error ev req_body st :
  (∃ e, incomingText_of trim toLowerCase (body_of req_body) = Throw e)
  ∨ (∃ e, ToPropertyKey (channelId_of (body_of req_body)) = Throw e) →
  mastra_agent trim toLowerCase WORDS ev req_body st
  = (st, Json500 "Agent internal error").
Proof.
  intros Hthrow. unfold mastra_agent, agent_try. rewrite bind_run.
  destruct (incomingText_of trim toLowerCase (body_of req_body)) as [t|e0];
    cbn [lift]; [|done].
  destruct Hthrow as [[e He]|[e He]]; [done|].
  destruct (is_sentence t).
  - by rewrite (acknowledge_no_key _ _ _ _ _ _ He).
  - unfold daily_word. rewrite bind_run.
    by rewrite (pickNextWord_no_key _ _ _ _ _ He).
Qed.

Lemma bind_return_inv {A B} (m : M A) (f : A → M B) st st' b :
  (m ≫= f) st = (st', Return b) →
  ∃ a st1, m st = (st1, Return a) ∧ f a st1 = (st', Return b).
Proof.
  rewrite bind_run. destruct (m st) as [st1 [a|e]]; [eauto|done].
Qed.

(** X11.  The shape of an answer.  Every 200 answer has the type
    [message]; it carries the two buttons when the normalised text asked
    for the daily word and no button when it was a sentence. *)
Theorem response_shape ev req_body st t p :
  incomingText_of trim toLowerCase (body_of req_body) = Return t →
  snd (mastra_agent trim toLowerCase WORDS ev req_body st) = Json200 p →
  type p = "message"
  ∧ actions p = if is_sentence t then [] else sentence_buttons.
Proof.
  intros Ht. unfold mastra_agent. rewrite (agent_try_text _ _ _ _ _ _ _ Ht).
  destruct (is_sentence t).
  - destruct (acknowledge _ _ _ _ _) as [st' [p'|e]] eqn:Hack; [|done].
    cbn. intros [= ->]. unfold acknowledge in Hack.
    apply bind_return_inv in Hack as (cur & st1 & _ & Hack).
    apply bind_return_inv in Hack as (li & st2 & _ & Hack).
    apply bind_return_inv in Hack as (lw & st3 & _ & Hack).
    apply bind_return_inv in Hack as (reply & st4 & _ & Hack).
    by injection Hack as _ <-.
  - destruct (daily_word _ _ _ _ _) as [st' [p'|e]] eqn:Hday; [|done].
    cbn. intros [= ->]. unfold daily_word in Hday.
    apply bind_return_inv in Hday as (pk & st1 & _ & Hday).
    apply bind_return_inv in Hday as (txt & st2 & _ & Hday).
    by injection Hday as _ <-.
Qed.



End Coverage.

(** ** A number as identifier *)

Lemma Number_toString_not_empty (n : Z) : (Number_toString n =? "") = false.
Proof.
  unfold Number_toString. destruct (Z.to_int n) as [d|d]; [|done].
  by destruct d.
Qed.

(** The identifier of a payload that gives it as [channelId] only. *)
Lemma channelId_of_channelId (v : val) :
  truthy v = true →
  channelId_of (body_of (VObj [("channelId", v)])) = v.
Proof.
  intros Hv. unfold channelId_of, body_of, js_or. cbn. by rewrite Hv.
Qed.

(** X9.  A number and its digits are one conversation.  Let [n] be a safe
    integer other than 0 (the identifier 0 is falsy and the handler passes
    on to the next probe).  A daily-word request that gives the number [n]
    as [channelId] works on the record stored under the decimal digits of
    [n]: with a non-empty catalog of [T] entries and a cursor [z],
    [0 <= z < 2^53], read for that key, it leaves the record at cursor
    [(z + 1) mod T], and a following request that gives the digits as a
    string is answered, when its write is accepted, with the entry at
    [(z + 1) mod T], the next one of the same rotation. *)
Theorem same_key_same_conversation (WORDS : list WordEntry)
    (ev1 ev2 : env) (st : state) (n z : Z) :
  0 < length WORDS →
  n ≠ 0%Z →
  safe_integer n = true →
  stored_cursor st (Number_toString n) = Some z →
  (0 ≤ z < 2 ^ 53)%Z →
  fs_ok ev2 = true →
  let by_number := VObj [("channelId", VNum n)] in
  let by_string := VObj [("channelId", VStr (Number_toString n))] in
  ∃ w, WORDS !! Z.to_nat ((z + 1) `mod` Z.of_nat (length WORDS)) = Some w
       ∧ PROGRESS (fst (agent WORDS ev1 by_number st)) !! Number_toString n
         = Some {| index := Int ((z + 1) `mod` Z.of_nat (length WORDS));
                   last_sent := Some (now ev1) |}
       ∧ snd (agent WORDS ev2 by_string (fst (agent WORDS ev1 by_number st)))
         = Json200 (buildResponsePayload by_string (composed w) true).
Proof.
  intros HT Hn _ Hcur [Hz _] Hfs by_number by_string.
  assert (Htrig : "" ∈ trigger_phrases) by by apply (bool_decide_unpack _).
  assert (Hkey1 : ToPropertyKey (channelId_of (body_of by_number))
                  = Return (Number_toString n)).
  { unfold by_number. rewrite channelId_of_channelId; [done|].
    cbn. by apply negb_true_iff, Z.eqb_neq. }
  assert (Hkey2 : ToPropertyKey (channelId_of (body_of by_string))
                  = Return (Number_toString n)).
  { unfold by_string. rewrite channelId_of_channelId; [done|].
    cbn [truthy]. by rewrite Number_toString_not_empty. }
  destruct (daily_request_run ascii_trim ascii_toLowerCase WORDS ev1
              by_number st "" _ z HT eq_refl Htrig Hkey1 Hcur Hz)
    as (w0 & _ & Hrun1).
  unfold agent. rewrite Hrun1. cbn [fst].
  set (z1 := ((z + 1) `mod` Z.of_nat (length WORDS))%Z).
  assert (0 ≤ z1 < Z.of_nat (length WORDS))%Z as Hz1
    by (apply Z.mod_pos_bound; lia).
  set (st1 := written ev1 _ _ _ st).
  assert (Hown1 : PROGRESS st1 !! Number_toString n
                  = Some {| index := Int z1; last_sent := Some (now ev1) |})
    by apply lookup_insert_eq.
  assert (Hcur1 : stored_cursor st1 (Number_toString n) = Some z1).
  { unfold stored_cursor. by rewrite (PROGRESS_at_own st1 _ _ Hown1). }
  destruct (daily_request_run ascii_trim ascii_toLowerCase WORDS ev2
              by_string st1 "" _ z1 HT eq_refl Htrig Hkey2 Hcur1 (proj1 Hz1))
    as (w & Hw & Hrun2).
  rewrite Z.mod_small in Hw by done.
  exists w. split; [done|]. split; [done|]. by rewrite Hrun2, Hfs.
Qed.

(** ** From startup to the first answer *)

Section FirstAnswer.

Variable trim : string → string.
Variable toLowerCase : string → string.
Variable JSON_parse : string → option parsed.
Variable JSON_parse_progress : string → option progress_value.

Lemma load_WORDS_not_empty (f : words_file) :
  0 < length (load_WORDS JSON_parse f).
Proof.
  unfold load_WORDS. destruct (existsSync f); [|cbn; lia].
  destruct (readFileSync f ≫= JSON_parse) as [[|entries]|]; try (cbn; lia).
  destruct entries; cbn; lia.
Qed.

(** A missing, unreadable or malformed [progress.json] starts the process
    without records. *)
Lemma load_PROGRESS_fallback (f : progress_file) :
  progress_exists f = false
  ∨ progress_read f = None
  ∨ (∃ raw, progress_read f = Some raw ∧ JSON_parse_progress raw = None) →
  load_PROGRESS JSON_parse_progress f = Records ∅.
Proof.
  unfold load_PROGRESS. intros [->|[->|(raw & -> & Hp)]]; [done| |].
  - by destruct (progress_exists f).
  - cbn. rewrite Hp. by destruct (progress_exists f).
Qed.

(** X14.  The first answer after startup.  Let [french_words.json] be
    missing, unreadable, not JSON, not an array, an empty array, or an
    array of entries with the four string fields; let the load of
    [progress.json] leave in [PROGRESS] an object of records (the file is
    missing, unreadable or malformed, or holds such an object) with no
    record under the key of the conversation; let the numbers of the
    payload be safe integers and the key be none of the inherited names.
    Then the first daily-word request of that conversation, with a working
    disk, is answered with the first entry of the loaded catalog, and the
    conversation gets a record with cursor [1 mod T]. *)
Theorem startup_first_request (wf : words_file) (pf : progress_file)
    (records : gmap string entry) ev req_body t key :
  safe_numbers req_body = true →
  incomingText_of trim toLowerCase (body_of req_body) = Return t →
  t ∈ trigger_phrases →
  ToPropertyKey (channelId_of (body_of req_body)) = Return key →
  inherited key = false →
  load_PROGRESS JSON_parse_progress pf = Records records →
  records !! key = None →
  fs_ok ev = true →
  ∃ w, head (load_WORDS JSON_parse wf) = Some w
       ∧ snd (mastra_agent trim toLowerCase (load_WORDS JSON_parse wf) ev
                req_body (startup records))
         = Json200 (buildResponsePayload (body_of req_body) (composed w)
                      true)
       ∧ PROGRESS (fst (mastra_agent trim toLowerCase
                          (load_WORDS JSON_parse wf) ev req_body
                          (startup records))) !! key
         = Some {| index := Int (1 `mod` Z.of_nat
                                   (length (load_WORDS JSON_parse wf)));
                   last_sent := Some (now ev) |}.
Proof.
  intros _ Ht Hin Hkey Hinh _ Hnone Hfs.
  assert (Hcur : stored_cursor (startup records) key = Some 0%Z).
  { unfold stored_cursor.
    assert (PROGRESS_at (startup records) key = Absent)
      as -> by (by apply PROGRESS_at_absent).
    done. }
  destruct (daily_request_run trim toLowerCase (load_WORDS JSON_parse wf) ev
              req_body _ t key 0 (load_WORDS_not_empty wf) Ht Hin Hkey Hcur
              ltac:(lia)) as (w & Hw & Hrun).
  exists w. rewrite Hrun, Hfs. cbn [fst snd written PROGRESS].
  split; [|split; [done|]].
  - rewrite Z.mod_0_l in Hw
      by (pose proof (load_WORDS_not_empty wf); lia).
    rewrite head_lookup. exact Hw.
  - by rewrite lookup_insert_eq.
Qed.

End FirstAnswer.

(** ** The further properties at concrete requests *)

Lemma reachable_cursors_in_range_witness : in_range 6 (Int 0).
Proof.
  exact (reachable_cursors_in_range ascii_trim ascii_toLowerCase
           DEFAULT_WORDS ltac:(cbn; lia)
           (daily_requests ["t1"; "t2"; "t3"; "t4"; "t5"; "t6"])
           "global" {| index := Int 0; last_sent := Some "t6" |}
           ltac:(vm_compute; reflexivity)).
Defined.

Lemma daily_request_serves_witness :
  snd (agent DEFAULT_WORDS (clock "t1") (VObj []) stale_state)
  = Json200 (buildResponsePayload (VObj []) (composed merci) true)
  ∧ PROGRESS (fst (agent DEFAULT_WORDS (clock "t1") (VObj []) stale_state))
      !! "global"
    = Some {| index := Int 2; last_sent := Some "t1" |}.
Proof.
  destruct (daily_request_serves ascii_trim ascii_toLowerCase DEFAULT_WORDS
              (clock "t1") (VObj []) stale_state "" "global" 7
              ltac:(cbn; lia) eq_refl eq_refl
              ltac:(by apply (bool_decide_unpack _)) eq_refl eq_refl
              ltac:(lia) eq_refl) as (w & Hw & Hrun).
  vm_compute in Hw. injection Hw as <-.
  unfold agent. rewrite Hrun. split; reflexivity.
Defined.

Lemma refused_write_skips_entry_witness :
  snd (agent DEFAULT_WORDS (disk_full "t1") (VObj []) fresh_state)
  = Json500 "Agent internal error"
  ∧ snd (agent DEFAULT_WORDS (clock "t2") (VObj [])
           (fst (agent DEFAULT_WORDS (disk_full "t1") (VObj [])
                   fresh_state)))
    = Json200 (buildResponsePayload (VObj []) (composed merci) true).
Proof.
  destruct (refused_write_skips_entry ascii_trim ascii_toLowerCase
              DEFAULT_WORDS (disk_full "t1") (clock "t2") (VObj [])
              fresh_state "" "global" 0 ltac:(cbn; lia) eq_refl eq_refl
              ltac:(by apply (bool_decide_unpack _)) eq_refl eq_refl
              ltac:(lia) eq_refl eq_refl) as [H500 (w & Hw & H200)].
  vm_compute in Hw. injection Hw as <-. split; [exact H500|exact H200].
Defined.


Lemma request_frame_witness :
  PROGRESS (fst (agent DEFAULT_WORDS (clock "t3")
                   (VObj [("channelId", VStr "room")]) served_two))
    !! "global"
  = Some {| index := Int 2; last_sent := Some "t2" |}.
Proof.
  unfold agent.
  rewrite (request_frame ascii_trim ascii_toLowerCase DEFAULT_WORDS
             (clock "t3") (VObj [("channelId", VStr "room")]) served_two
             "global" eq_refl ltac:(discriminate)).
  vm_compute. reflexivity.
Defined.

Lemma records_never_removed_witness :
  is_Some (PROGRESS (after_requests ascii_trim ascii_toLowerCase
                       DEFAULT_WORDS
                       [(clock "t3", VObj [("channelId", VStr "room")]);
                        (disk_full "t4", VObj [("text", VStr "start")])]
                       served_two) !! "global").
Proof.
  apply (records_never_removed ascii_trim ascii_toLowerCase DEFAULT_WORDS).
  exists {| index := Int 2; last_sent := Some "t2" |}.
  vm_compute. reflexivity.
Defined.

Lemma same_key_same_conversation_witness :
  snd (agent DEFAULT_WORDS (clock "t2") (VObj [("channelId", VStr "5")])
         (fst (agent DEFAULT_WORDS (clock "t1")
                 (VObj [("channelId", VNum 5)]) fresh_state)))
  = Json200 (buildResponsePayload (VObj [("channelId", VStr "5")])
               (composed merci) true).
Proof.
  destruct (same_key_same_conversation DEFAULT_WORDS (clock "t1")
              (clock "t2") fresh_state 5 0 ltac:(cbn; lia) ltac:(lia)
              eq_refl eq_refl ltac:(lia) eq_refl) as (w & Hw & _ & Hrun).
  vm_compute in Hw. injection Hw as <-. exact Hrun.
Defined.

Lemma no_string_form_is_internal_error_witness :
  agent DEFAULT_WORDS (clock "t3") odd_payload served_two
  = (served_two, Json500 "Agent internal error").
Proof.
  apply (no_string_form_is_internal_error ascii_trim ascii_toLowerCase
           DEFAULT_WORDS).
  right. exists TypeError. reflexivity.
Defined.

Lemma response_shape_witness :
  type (buildResponsePayload (VObj []) (composed bonjour) true) = "message"
  ∧ actions (buildResponsePayload (VObj []) (composed bonjour) true)
    = sentence_buttons.
Proof.
  exact (response_shape ascii_trim ascii_toLowerCase DEFAULT_WORDS
           (clock "t1") (VObj []) fresh_state ""
           (buildResponsePayload (VObj []) (composed bonjour) true)
           eq_refl ltac:(vm_compute; reflexivity)).
Defined.

Lemma acknowledge_never_served_witness :
  acknowledge DEFAULT_WORDS (VStr "room") "bonjour" (VObj []) served_one
  = (served_one,
     Return (buildResponsePayload (VObj []) (tip "example") false)).
Proof.
  apply (acknowledge_never_served DEFAULT_WORDS "room").
  vm_compute. reflexivity.
Defined.

Lemma startup_first_request_witness :
  snd (agent (load_WORDS (λ _, None) no_file) (clock "t1")
         (VObj [("address", VStr "lobby/42")]) (startup ∅))
  = Json200 (buildResponsePayload (VObj [("address", VStr "lobby/42")])
               (composed bonjour) true).
Proof.
  destruct (startup_first_request ascii_trim ascii_toLowerCase
              (λ _, None) (λ _, None) no_file no_progress_file ∅
              (clock "t1") (VObj [("address", VStr "lobby/42")]) "" "lobby"
              eq_refl eq_refl ltac:(by apply (bool_decide_unpack _)) eq_refl
              eq_refl eq_refl eq_refl eq_refl) as (w & Hw & Hrun & _).
  vm_compute in Hw. injection Hw as <-. exact Hrun.
Defined.

